(** * LiveProfessor audio session and image generation: a shallow embedding

    The development follows [components/LiveProfessor.tsx] (the PCM helpers
    [createBlob] and [decodeAudioData], the live-session callbacks and
    [cleanup]), [services/gemini.ts] ([generateLectureImage], the text
    services and [playTTS]) and [App.tsx] (lecture generation, the quiz,
    reading aloud, the upload).

    Numbers.  Audio samples and times are JavaScript numbers.  They are
    modelled as rationals ([Q]): a [Float32Array] element is a dyadic
    rational, the product [data[i] * 32768] and the quotient
    [dataInt16[i] / 32768.0] are exact in binary64, and the quotient is
    exactly representable in a [Float32Array]; no rounding takes place in
    either PCM helper.  Times ([currentTime], [duration], the schedule
    cursor) are idealised the same way.  NaN and infinities are outside the
    model.

    Browser built-ins ([btoa], [atob], typed-array views, [createBuffer]) are
    modelled from their standards (WHATWG forgiving-base64, ECMAScript
    ToInt16 and typed-array constructors, Web Audio).

    Promises.  A callback is one step.  A reaction passed to [then] on the
    connect promise does not run inside the callback that registers it: it
    runs when the promise fulfils, which is a step of its own, or, on a
    promise that has fulfilled, in the microtask after the callback. *)

From Stdlib Require Import ZArith QArith Qabs Lqa String Ascii List Bool Lia
  Permutation.
From stdpp Require gmap.
Import ListNotations.

Local Open Scope Z_scope.

(** ** Errors a handler can raise *)

Inductive exn : Type :=
| InvalidCharacterError   (* atob on text that is not base64 *)
| RangeError              (* new Int16Array(buffer) on an odd byte length *)
| NotSupportedError       (* createBuffer with zero frames *)
| NotAllowedError         (* getUserMedia rejected *)
| RemoteError (msg : string).  (* a rejected remote call *)

(** ** Base64: [btoa] and [atob] on byte sequences

    A binary string is a list of char codes; each code is a byte. *)

Module Base64.

Definition alphabet : list ascii :=
  list_ascii_of_string
    "ABCDEFGHIJKLMNOPQRSTUVWXYZabcdefghijklmnopqrstuvwxyz0123456789+/".

Definition pad : ascii := "="%char.

Definition b64char (n : Z) : ascii := nth (Z.to_nat n) alphabet "A"%char.

Fixpoint index_of (c : ascii) (l : list ascii) (i : Z) : option Z :=
  match l with
  | [] => None
  | x :: r => if Ascii.eqb c x then Some i else index_of c r (i + 1)
  end.

Definition b64val (c : ascii) : option Z := index_of c alphabet 0.

(** The 6-bit groups of a byte sequence, most significant bits first; a
    final group of one or two bytes is completed with zero bits. *)
Fixpoint sextets_of_bytes (bs : list Z) : list Z :=
  match bs with
  | [] => []
  | [a] => [a / 4; (a mod 4) * 16]
  | [a; b] => [a / 4; (a mod 4) * 16 + b / 16; (b mod 16) * 4]
  | a :: b :: c :: rest =>
      a / 4 :: (a mod 4) * 16 + b / 16 :: (b mod 16) * 4 + c / 64 :: c mod 64
        :: sextets_of_bytes rest
  end.

Definition padding (n : nat) : list ascii :=
  match Nat.modulo n 3 with
  | 1%nat => [pad; pad]
  | 2%nat => [pad]
  | _ => []
  end.

Definition btoa_chars (bs : list Z) : list ascii :=
  map b64char (sextets_of_bytes bs) ++ padding (length bs).

Definition btoa (bs : list Z) : string := string_of_list_ascii (btoa_chars bs).

(** ASCII whitespace: TAB, LF, FF, CR, SPACE. *)
Definition is_ascii_whitespace (c : ascii) : bool :=
  let n := nat_of_ascii c in
  (Nat.eqb n 9 || Nat.eqb n 10 || Nat.eqb n 12 || Nat.eqb n 13 || Nat.eqb n 32)%bool.

Definition strip_whitespace (l : list ascii) : list ascii :=
  filter (fun c => negb (is_ascii_whitespace c)) l.

Fixpoint drop_pad (n : nat) (l : list ascii) : list ascii :=
  match n, l with
  | S k, c :: r => if Ascii.eqb c pad then drop_pad k r else l
  | _, _ => l
  end.

(** When the length is a multiple of four, one or two trailing [=] are
    removed. *)
Definition strip_padding (l : list ascii) : list ascii :=
  if Nat.eqb (Nat.modulo (length l) 4) 0 then rev (drop_pad 2 (rev l)) else l.

Fixpoint sextets_of_chars (l : list ascii) : option (list Z) :=
  match l with
  | [] => Some []
  | c :: r =>
      match b64val c, sextets_of_chars r with
      | Some v, Some vs => Some (v :: vs)
      | _, _ => None
      end
  end.

(** 24 bits give three bytes; a remainder of 12 bits gives one byte and a
    remainder of 18 bits gives two, the surplus low bits being discarded. *)
Fixpoint bytes_of_sextets (l : list Z) : list Z :=
  match l with
  | a :: b :: c :: d :: rest =>
      let n := ((a * 64 + b) * 64 + c) * 64 + d in
      (n / 65536) mod 256 :: (n / 256) mod 256 :: n mod 256
        :: bytes_of_sextets rest
  | [a; b; c] =>
      let n := ((a * 64 + b) * 64 + c) / 4 in
      [(n / 256) mod 256; n mod 256]
  | [a; b] => [((a * 64 + b) / 16) mod 256]
  | _ => []
  end.

Definition atob_chars (l : list ascii) : exn + list Z :=
  let d := strip_padding (strip_whitespace l) in
  if Nat.eqb (Nat.modulo (length d) 4) 1 then inl InvalidCharacterError
  else match sextets_of_chars d with
       | None => inl InvalidCharacterError
       | Some vs => inr (bytes_of_sextets vs)
       end.

Definition atob (s : string) : exn + list Z := atob_chars (list_ascii_of_string s).

(** The ranges of a byte and of a 6-bit group. *)
Definition byte (b : Z) : Prop := 0 <= b < 256.
Definition sextet (v : Z) : Prop := 0 <= v < 64.

End Base64.

(** ** PCM helpers: [createBlob] and [decodeAudioData] *)

Module Pcm.

Record Blob : Type := mkBlob { data : string; mimeType : string }.

Record AudioBuffer : Type := mkAudioBuffer {
  channelData : list Q;      (* the single channel, getChannelData(0) *)
  sampleRate : Z
}.

(** [buffer.duration]: length over sample rate, in seconds. *)
Definition duration (b : AudioBuffer) : Q :=
  (inject_Z (Z.of_nat (length (channelData b))) / inject_Z (sampleRate b))%Q.

(** Truncation toward zero of a rational. *)
Definition trunc (x : Q) : Z := Z.quot (Qnum x) (Zpos (Qden x)).

(** ECMAScript ToInt16: truncate, reduce modulo 2^16, read as signed.  This
    is what storing a number into an [Int16Array] element does. *)
Definition ToInt16 (x : Q) : Z :=
  let m := trunc x mod 65536 in
  if m <? 32768 then m else m - 65536.

(** The two bytes of an int16 element seen through [new Uint8Array(int16.buffer)],
    low byte first. *)
Definition bytes_of_int16 (v : Z) : list Z :=
  let u := v mod 65536 in [u mod 256; u / 256].

(** An int16 element read from two bytes, low byte first. *)
Definition int16_of_bytes (lo hi : Z) : Z :=
  let u := lo + 256 * hi in
  if u <? 32768 then u else u - 65536.

(** The elements of a byte buffer of even length, two bytes each. *)
Fixpoint int16_elements (bs : list Z) : list Z :=
  match bs with
  | lo :: hi :: rest => int16_of_bytes lo hi :: int16_elements rest
  | _ => []
  end.

(** [new Int16Array(bytes.buffer)]: a byte length that is not a multiple of
    2 raises [RangeError]. *)
Definition Int16Array_of_bytes (bs : list Z) : exn + list Z :=
  if Nat.even (length bs) then inr (int16_elements bs) else inl RangeError.

(** [ctx.createBuffer(1, frameCount, 24000)]: at least one frame is required. *)
Definition createBuffer (frameCount : nat) (rate : Z) : exn + unit :=
  match frameCount with
  | O => inl NotSupportedError
  | S _ => inr tt
  end.

Definition createBlob (samples : list Q) : Blob :=
  let int16 := map (fun x => ToInt16 (x * 32768)%Q) samples in
  let bytes := flat_map bytes_of_int16 int16 in
  let base64Data := Base64.btoa bytes in
  {| data := base64Data; mimeType := "audio/pcm;rate=16000" |}.

(** The range of an [Int16Array] element. *)
Definition int16 (v : Z) : Prop := -32768 <= v < 32768.

Definition decodeAudioData (base64 : string) : exn + AudioBuffer :=
  match Base64.atob base64 with
  | inl e => inl e
  | inr bytes =>
      match Int16Array_of_bytes bytes with
      | inl e => inl e
      | inr dataInt16 =>
          match createBuffer (length dataInt16) 24000 with
          | inl e => inl e
          | inr _ =>
              inr {| channelData := map (fun v => (inject_Z v / 32768)%Q) dataInt16;
                     sampleRate := 24000 |}
          end
      end
  end.

End Pcm.

(** ** The live session component *)

Module Live.
Import Pcm.

Inductive Status : Type := connecting | listening | speaking | error.

Record UploadedFile : Type := mkUploadedFile {
  file_data : string;        (* base64 *)
  file_mimeType : string
}.

(** The two parts of a [LiveServerMessage] the component reads:
    [serverContent?.modelTurn?.parts?.[0]?.inlineData?.data] and
    [serverContent?.interrupted]. *)
Record LiveServerMessage : Type := mkMessage {
  base64Audio : option string;
  interrupted : bool
}.

(** Identity of a browser or SDK object (audio context, media stream, audio
    node, session promise). *)
Definition handle : Type := nat.

Inductive Target : Type :=
| Node (n : handle)
| Destination (ctx : handle).

(** Calls the component makes on the browser and on the SDK, in program
    order.  [CallCleanup] marks an entry into [cleanup], so that a trace
    tells how often teardown ran; it is not a device effect. *)
Inductive Action : Type :=
| ConsoleLog (text : string)
| ConsoleError (text : string)
| NewAudioContext (ctx : handle) (rate : Z)
| GetUserMedia
| LiveConnect (session inputCtx stream : handle)
| SendRealtimeInput (session : handle) (media : Blob)
| CreateMediaStreamSource (ctx stream node : handle)
| CreateScriptProcessor (ctx node : handle) (bufferSize : Z)
| CreateBufferSource (ctx node : handle)
| Connect (node : handle) (target : Target)
| Disconnect (node : handle)
| StopTracks (stream : handle)
| CloseContext (ctx : handle)
| SourceStart (node : handle) (when : Q)
| SourceStop (node : handle)
| CallCleanup.

(** React state ([isActive], [status], [errorMessage]) and the refs of the
    component.  [sourcesRef] is a JavaScript [Set] of source nodes, kept in
    insertion order; [nextHandle] names the next object to be created.
    [pendingSessions] is the part of the promise machinery the component
    relies on: the promises returned by [ai.live.connect] that have not
    fulfilled, each with the media its [then] reactions send once it does,
    in the order the reactions were registered.  A session promise that is
    not in the table has fulfilled; one that rejects stays in it, and its
    reactions never run. *)
Record State : Type := mkState {
  isActive : bool;
  status : Status;
  errorMessage : string;
  sessionPromiseRef : option handle;
  audioContextRef : option handle;
  inputContextRef : option handle;
  streamRef : option handle;
  processorRef : option handle;
  nextStartTimeRef : Q;
  sourcesRef : list handle;
  nextHandle : handle;
  pendingSessions : list (handle * list Blob)
}.

Definition initial : State :=
  {| isActive := false; status := connecting; errorMessage := "";
     sessionPromiseRef := None; audioContextRef := None;
     inputContextRef := None; streamRef := None; processorRef := None;
     nextStartTimeRef := 0%Q; sourcesRef := []; nextHandle := O;
     pendingSessions := [] |}.

Definition set_isActive (v : bool) (s : State) : State :=
  mkState v (status s) (errorMessage s) (sessionPromiseRef s)
    (audioContextRef s) (inputContextRef s) (streamRef s) (processorRef s)
    (nextStartTimeRef s) (sourcesRef s) (nextHandle s)
    (pendingSessions s).

Definition set_status (v : Status) (s : State) : State :=
  mkState (isActive s) v (errorMessage s) (sessionPromiseRef s)
    (audioContextRef s) (inputContextRef s) (streamRef s) (processorRef s)
    (nextStartTimeRef s) (sourcesRef s) (nextHandle s)
    (pendingSessions s).

Definition set_errorMessage (v : string) (s : State) : State :=
  mkState (isActive s) (status s) v (sessionPromiseRef s)
    (audioContextRef s) (inputContextRef s) (streamRef s) (processorRef s)
    (nextStartTimeRef s) (sourcesRef s) (nextHandle s)
    (pendingSessions s).

Definition set_sessionPromiseRef (v : option handle) (s : State) : State :=
  mkState (isActive s) (status s) (errorMessage s) v
    (audioContextRef s) (inputContextRef s) (streamRef s) (processorRef s)
    (nextStartTimeRef s) (sourcesRef s) (nextHandle s)
    (pendingSessions s).

Definition set_audioContextRef (v : option handle) (s : State) : State :=
  mkState (isActive s) (status s) (errorMessage s) (sessionPromiseRef s)
    v (inputContextRef s) (streamRef s) (processorRef s)
    (nextStartTimeRef s) (sourcesRef s) (nextHandle s)
    (pendingSessions s).

Definition set_inputContextRef (v : option handle) (s : State) : State :=
  mkState (isActive s) (status s) (errorMessage s) (sessionPromiseRef s)
    (audioContextRef s) v (streamRef s) (processorRef s)
    (nextStartTimeRef s) (sourcesRef s) (nextHandle s)
    (pendingSessions s).

Definition set_streamRef (v : option handle) (s : State) : State :=
  mkState (isActive s) (status s) (errorMessage s) (sessionPromiseRef s)
    (audioContextRef s) (inputContextRef s) v (processorRef s)
    (nextStartTimeRef s) (sourcesRef s) (nextHandle s)
    (pendingSessions s).

Definition set_processorRef (v : option handle) (s : State) : State :=
  mkState (isActive s) (status s) (errorMessage s) (sessionPromiseRef s)
    (audioContextRef s) (inputContextRef s) (streamRef s) v
    (nextStartTimeRef s) (sourcesRef s) (nextHandle s)
    (pendingSessions s).

Definition set_nextStartTimeRef (v : Q) (s : State) : State :=
  mkState (isActive s) (status s) (errorMessage s) (sessionPromiseRef s)
    (audioContextRef s) (inputContextRef s) (streamRef s) (processorRef s)
    v (sourcesRef s) (nextHandle s)
    (pendingSessions s).

Definition set_sourcesRef (v : list handle) (s : State) : State :=
  mkState (isActive s) (status s) (errorMessage s) (sessionPromiseRef s)
    (audioContextRef s) (inputContextRef s) (streamRef s) (processorRef s)
    (nextStartTimeRef s) v (nextHandle s)
    (pendingSessions s).

Definition set_nextHandle (v : handle) (s : State) : State :=
  mkState (isActive s) (status s) (errorMessage s) (sessionPromiseRef s)
    (audioContextRef s) (inputContextRef s) (streamRef s) (processorRef s)
    (nextStartTimeRef s) (sourcesRef s) v
    (pendingSessions s).

Definition set_pendingSessions (v : list (handle * list Blob)) (s : State) : State :=
  mkState (isActive s) (status s) (errorMessage s) (sessionPromiseRef s)
    (audioContextRef s) (inputContextRef s) (streamRef s) (processorRef s)
    (nextStartTimeRef s) (sourcesRef s) (nextHandle s) v.

(** *** A monad for handlers

    A handler transforms the component state, issues calls, and either
    returns or throws.  What it did before a throw stays done. *)

Definition M (A : Type) : Type := State -> State * list Action * (exn + A).

Definition ret {A : Type} (a : A) : M A := fun s => (s, [], inr a).

Definition bind {A B : Type} (m : M A) (k : A -> M B) : M B :=
  fun s =>
    match m s with
    | (s1, t1, inl e) => (s1, t1, inl e)
    | (s1, t1, inr a) =>
        match k a s1 with
        | (s2, t2, r) => (s2, t1 ++ t2, r)
        end
    end.

Definition get : M State := fun s => (s, [], inr s).
Definition modify (f : State -> State) : M unit := fun s => (f s, [], inr tt).
Definition emit (a : Action) : M unit := fun s => (s, [a], inr tt).
Definition lift {A : Type} (r : exn + A) : M A := fun s => (s, [], r).

Definition try_catch {A : Type} (m : M A) (h : exn -> M A) : M A :=
  fun s =>
    match m s with
    | (s1, t1, inl e) =>
        match h e s1 with
        | (s2, t2, r) => (s2, t1 ++ t2, r)
        end
    | done => done
    end.

Declare Scope live_scope.
Delimit Scope live_scope with live.
Notation "x <- m ;; k" := (bind m (fun x => k))
  (at level 61, m at next level, right associativity) : live_scope.
Notation "m ;; k" := (bind m (fun _ => k))
  (at level 61, right associativity) : live_scope.
Local Open Scope live_scope.

(** [new ...] and [create...]: a new object identity. *)
Definition alloc : M handle :=
  fun s => (set_nextHandle (S (nextHandle s)) s, [], inr (nextHandle s)).

(** [array.forEach(f)] and [set.forEach(f)]. *)
Fixpoint forEach {A : Type} (l : list A) (f : A -> M unit) : M unit :=
  match l with
  | [] => ret tt
  | x :: r => f x ;; forEach r f
  end.

(** [Set.prototype.add], [delete] on object identities. *)
Definition set_add (x : handle) (l : list handle) : list handle :=
  if existsb (Nat.eqb x) l then l else l ++ [x].

Definition set_delete (x : handle) (l : list handle) : list handle :=
  filter (fun y => negb (Nat.eqb x y)) l.

(** [Math.max] on two numbers. *)
Definition Math_max (x y : Q) : Q := if Qle_bool x y then y else x.

(** A non-empty string is truthy. *)
Definition nonempty (s : string) : bool :=
  match s with EmptyString => false | String _ _ => true end.

(** The char codes of a text, the argument [btoa] takes. *)
Definition char_codes (s : string) : list Z :=
  map (fun c => Z.of_nat (nat_of_ascii c)) (list_ascii_of_string s).

(** The table of pending promises: the media queued on [p], [p] taken out,
    and [p] entered with a queue. *)
Definition reactions (p : handle) (table : list (handle * list Blob))
  : option (list Blob) :=
  option_map snd (find (fun entry => Nat.eqb p (fst entry)) table).

Definition settle (p : handle) (table : list (handle * list Blob))
  : list (handle * list Blob) :=
  filter (fun entry => negb (Nat.eqb p (fst entry))) table.

Definition register (p : handle) (media : list Blob)
  (table : list (handle * list Blob)) : list (handle * list Blob) :=
  (p, media) :: settle p table.

(** [sessionPromiseRef.current?.then(session => ...)], for a reaction whose
    body sends [media] with [session.sendRealtimeInput], one call each.
    Nothing is sent by the call of [then] itself.  On a promise that is
    still pending the reaction is queued behind the earlier ones and runs
    when the promise fulfils ([onfulfilled]).  On a promise that has
    fulfilled the reaction runs in a microtask, after the synchronous rest
    of the handler that called [then]: [withSession] hands the calls of that
    microtask back to the handler, which makes them at its very end
    ([microtasks]). *)
Definition withSession (media : list Blob) : M (list Action) :=
  s <- get ;;
  match sessionPromiseRef s with
  | Some session =>
      match reactions session (pendingSessions s) with
      | Some earlier =>
          modify (set_pendingSessions
                    (register session (earlier ++ media) (pendingSessions s))) ;;
          ret []
      | None => ret (map (SendRealtimeInput session) media)
      end
  | None => ret []
  end.

(** The microtasks a handler queued, run when its synchronous code is done. *)
Definition microtasks (calls : list Action) : M unit :=
  forEach calls emit.

(** The connect promise [session] fulfils: the reactions queued on it run,
    in the order they were registered. *)
Definition onfulfilled (session : handle) : M unit :=
  s <- get ;;
  match reactions session (pendingSessions s) with
  | Some sends =>
      modify (set_pendingSessions (settle session (pendingSessions s))) ;;
      forEach sends (fun media => emit (SendRealtimeInput session media))
  | None => ret tt
  end.

Definition cleanup : M unit :=
  emit CallCleanup ;;
  modify (set_isActive false) ;;
  (* Stop mic processing *)
  s <- get ;;
  match processorRef s, inputContextRef s with
  | Some processor, Some _ =>
      emit (Disconnect processor) ;; modify (set_processorRef None)
  | _, _ => ret tt
  end ;;
  s <- get ;;
  match streamRef s with
  | Some stream => emit (StopTracks stream) ;; modify (set_streamRef None)
  | None => ret tt
  end ;;
  s <- get ;;
  match inputContextRef s with
  | Some ctx => emit (CloseContext ctx) ;; modify (set_inputContextRef None)
  | None => ret tt
  end ;;
  (* Stop audio playback *)
  s <- get ;;
  forEach (sourcesRef s) (fun source => emit (SourceStop source)) ;;
  modify (set_sourcesRef []) ;;
  s <- get ;;
  match audioContextRef s with
  | Some ctx => emit (CloseContext ctx) ;; modify (set_audioContextRef None)
  | None => ret tt
  end ;;
  modify (set_sessionPromiseRef None).

(** The body of [startSession].  [getUserMedia] is the outcome of the
    microphone request, the one call of the [try] block that is given a
    failing outcome.  The callbacks passed to [ai.live.connect] close over
    [inputCtx] and [stream]; [LiveConnect] records them.  The promise that
    [ai.live.connect] returns is pending, with no reaction on it. *)
Definition startSession (getUserMedia : exn + unit) : M unit :=
  try_catch
    (modify (set_errorMessage "") ;;
     modify (set_status connecting) ;;
     (* Initialize Audio Contexts *)
     outputCtx <- alloc ;;
     emit (NewAudioContext outputCtx 24000) ;;
     modify (set_audioContextRef (Some outputCtx)) ;;
     inputCtx <- alloc ;;
     emit (NewAudioContext inputCtx 16000) ;;
     modify (set_inputContextRef (Some inputCtx)) ;;
     (* Get Mic Stream *)
     emit GetUserMedia ;;
     lift getUserMedia ;;
     stream <- alloc ;;
     modify (set_streamRef (Some stream)) ;;
     sessionPromise <- alloc ;;
     emit (LiveConnect sessionPromise inputCtx stream) ;;
     s <- get ;;
     modify (set_pendingSessions (register sessionPromise [] (pendingSessions s))) ;;
     modify (set_sessionPromiseRef (Some sessionPromise)))
    (fun err =>
       emit (ConsoleError "Failed to start session") ;;
       modify (set_errorMessage "Could not access microphone or connect.") ;;
       modify (set_status error)).

Definition readySignal : Blob :=
  {| mimeType := "text/plain";
     data := Base64.btoa
               (char_codes "I have uploaded the book pages. I am ready to ask questions.") |}.

(** What the reaction registered by [onopen] sends, lines 110-124: the
    attachments in order, then the ready signal. *)
Definition contextMedia (files : list UploadedFile) : list Blob :=
  map (fun file => {| mimeType := file_mimeType file; data := file_data file |})
      files
    (* Send a "hello" trigger to let the model know context is ready *)
    ++ [readySignal].

(** The open callback, lines 103-142.  Its synchronous code registers the
    reaction and wires the capture pipeline; the reaction sends later. *)
Definition onopen (files : list UploadedFile) (inputCtx stream : handle) : M unit :=
  emit (ConsoleLog "Live Session Opened") ;;
  modify (set_status listening) ;;
  modify (set_isActive true) ;;
  (* Send initial images as context *)
  later <- withSession (contextMedia files) ;;
  (* Setup Mic Stream Processing *)
  source <- alloc ;;
  emit (CreateMediaStreamSource inputCtx stream source) ;;
  processor <- alloc ;;
  emit (CreateScriptProcessor inputCtx processor 4096) ;;
  modify (set_processorRef (Some processor)) ;;
  emit (Connect source (Node processor)) ;;
  emit (Connect processor (Destination inputCtx)) ;;
  microtasks later.

(** [processor.onaudioprocess]. *)
Definition onaudioprocess (inputData : list Q) : M unit :=
  let pcmBlob := createBlob inputData in
  later <- withSession [pcmBlob] ;;
  microtasks later.

(** The audio branch of [onmessage], lines 147-165: one buffer is decoded
    and scheduled.  [currentTime] is the value of [ctx.currentTime] the
    handler reads.  The [await] on [decodeAudioData] resumes in a microtask,
    before any other event is handled, so the branch is one step. *)
Definition enqueue (audio : string) (ctx : handle) (currentTime : Q) : M unit :=
  modify (set_status speaking) ;;
  s <- get ;;
  modify (set_nextStartTimeRef (Math_max (nextStartTimeRef s) currentTime)) ;;
  buffer <- lift (decodeAudioData audio) ;;
  source <- alloc ;;
  emit (CreateBufferSource ctx source) ;;
  emit (Connect source (Destination ctx)) ;;
  s <- get ;;
  emit (SourceStart source (nextStartTimeRef s)) ;;
  modify (set_nextStartTimeRef (nextStartTimeRef s + duration buffer)%Q) ;;
  s <- get ;;
  modify (set_sourcesRef (set_add source (sourcesRef s))).

(** The interruption branch of [onmessage], lines 169-174. *)
Definition interrupt : M unit :=
  s <- get ;;
  forEach (sourcesRef s) (fun source => emit (SourceStop source)) ;;
  modify (set_sourcesRef []) ;;
  modify (set_nextStartTimeRef 0%Q) ;;
  modify (set_status listening).

Definition onmessage (msg : LiveServerMessage) (currentTime : Q) : M unit :=
  (* Handle Audio Output *)
  s <- get ;;
  match base64Audio msg, audioContextRef s with
  | Some audio, Some ctx =>
      if nonempty audio then enqueue audio ctx currentTime else ret tt
  | _, _ => ret tt
  end ;;
  (* Handle Interruption *)
  if interrupted msg then interrupt else ret tt.

(** The ['ended'] listener of a source node. *)
Definition onended (source : handle) : M unit :=
  s <- get ;;
  modify (set_sourcesRef (set_delete source (sourcesRef s))) ;;
  s <- get ;;
  if Nat.eqb (length (sourcesRef s)) 0 then modify (set_status listening) else ret tt.

Definition onclose : M unit :=
  emit (ConsoleLog "Live Session Closed") ;;
  cleanup.

Definition onerror : M unit :=
  emit (ConsoleError "Live Session Error") ;;
  modify (set_errorMessage "Connection error. Please try again.") ;;
  modify (set_status error) ;;
  cleanup.

(** *** Events

    Everything that makes the component run: mounting (the effect calls
    [startSession]), the session callbacks, the audio callbacks, the retry
    button ([cleanup(); startSession()]), unmounting (the effect's
    cleanup; the parent's [onClose] removes the component), and a connect
    promise that fulfils. *)
Inductive Event : Type :=
| Mount (getUserMedia : exn + unit)
| Open (inputCtx stream : handle)
| Message (msg : LiveServerMessage) (currentTime : Q)
| Ended (source : handle)
| AudioProcess (inputData : list Q)
| Close
| Error
| Retry (getUserMedia : exn + unit)
| Unmount
| Fulfilled (session : handle).

Definition handler (files : list UploadedFile) (ev : Event) : M unit :=
  match ev with
  | Mount mic => startSession mic
  | Open inputCtx stream => onopen files inputCtx stream
  | Message msg currentTime => onmessage msg currentTime
  | Ended source => onended source
  | AudioProcess inputData => onaudioprocess inputData
  | Close => onclose
  | Error => onerror
  | Retry mic => cleanup ;; startSession mic
  | Unmount => cleanup
  | Fulfilled session => onfulfilled session
  end.

(** One event: the state it leaves and the calls it made.  An exception that
    escapes a handler is an unhandled rejection; the component goes on. *)
Definition step (files : list UploadedFile) (s : State) (ev : Event)
  : State * list Action :=
  let '(s', t, _) := handler files ev s in (s', t).

Fixpoint run (files : list UploadedFile) (s : State) (evs : list Event)
  : State * list Action :=
  match evs with
  | [] => (s, [])
  | ev :: rest =>
      let '(s1, t1) := step files s ev in
      let '(s2, t2) := run files s1 rest in
      (s2, t1 ++ t2)
  end.

(** The states a run goes through, the first one included. *)
Fixpoint states (files : list UploadedFile) (s : State) (evs : list Event)
  : list State :=
  s :: match evs with
       | [] => []
       | ev :: rest => states files (fst (step files s ev)) rest
       end.

(** The start times of the buffers scheduled in a trace. *)
Fixpoint startTimes (t : list Action) : list Q :=
  match t with
  | [] => []
  | SourceStart _ when :: r => when :: startTimes r
  | _ :: r => startTimes r
  end.

(** The sources stopped in a trace. *)
Fixpoint stopped (t : list Action) : list handle :=
  match t with
  | [] => []
  | SourceStop n :: r => n :: stopped r
  | _ :: r => stopped r
  end.

(** How often [cleanup] was entered in a trace. *)
Fixpoint cleanups (t : list Action) : nat :=
  match t with
  | [] => O
  | CallCleanup :: r => S (cleanups r)
  | _ :: r => cleanups r
  end.

(** The media sent to the session in a trace. *)
Fixpoint sent (t : list Action) : list Blob :=
  match t with
  | [] => []
  | SendRealtimeInput _ media :: r => media :: sent r
  | _ :: r => sent r
  end.

(** Nothing is scheduled or playing and the cursor is not ahead of the
    device clock. *)
Definition idle (s : State) (currentTime : Q) : Prop :=
  sourcesRef s = [] /\ (nextStartTimeRef s <= currentTime)%Q.

(** An event whose handler runs the interruption branch. *)
Definition interrupting (ev : Event) : bool :=
  match ev with
  | Message msg _ => interrupted msg
  | _ => false
  end.

(** *** States and traces named in the statements *)

Definition state_of {A : Type} (r : State * list Action * (exn + A)) : State :=
  fst (fst r).

(** A message that carries one audio chunk and no interruption flag. *)
Definition chunk (audio : string) : LiveServerMessage :=
  {| base64Audio := Some audio; interrupted := false |}.

(** A message that carries the interruption flag only. *)
Definition interruption : LiveServerMessage :=
  {| base64Audio := None; interrupted := true |}.


(** The state [cleanup] leaves. *)
Definition cleaned (s : State) : State :=
  {| isActive := false; status := status s; errorMessage := errorMessage s;
     sessionPromiseRef := None; audioContextRef := None;
     inputContextRef := None; streamRef := None;
     processorRef := match processorRef s, inputContextRef s with
                     | Some _, Some _ => None
                     | p, _ => p
                     end;
     nextStartTimeRef := nextStartTimeRef s; sourcesRef := [];
     nextHandle := nextHandle s;
     pendingSessions := pendingSessions s |}.

Definition opt_action (f : handle -> Action) (r : option handle) : list Action :=
  match r with
  | Some h => [f h]
  | None => []
  end.

(** The calls [cleanup] makes. *)
Definition cleanup_trace (s : State) : list Action :=
  CallCleanup
    :: match inputContextRef s with
       | Some _ => opt_action Disconnect (processorRef s)
       | None => []
       end
    ++ opt_action StopTracks (streamRef s)
    ++ opt_action CloseContext (inputContextRef s)
    ++ map SourceStop (sourcesRef s)
    ++ opt_action CloseContext (audioContextRef s).

(** The state [enqueue] leaves when the chunk decodes. *)
Definition enqueued (s : State) (currentTime : Q) (buffer : AudioBuffer) : State :=
  {| isActive := isActive s; status := speaking; errorMessage := errorMessage s;
     sessionPromiseRef := sessionPromiseRef s;
     audioContextRef := audioContextRef s;
     inputContextRef := inputContextRef s; streamRef := streamRef s;
     processorRef := processorRef s;
     nextStartTimeRef :=
       (Math_max (nextStartTimeRef s) currentTime + duration buffer)%Q;
     sourcesRef := set_add (nextHandle s) (sourcesRef s);
     nextHandle := S (nextHandle s);
     pendingSessions := pendingSessions s |}.

(** The state [interrupt] leaves. *)
Definition interrupted_state (s : State) : State :=
  set_status listening (set_nextStartTimeRef 0%Q (set_sourcesRef [] s)).

(** The state a successful [startSession] leaves. *)
Definition started (s : State) : State :=
  {| isActive := isActive s; status := connecting; errorMessage := "";
     sessionPromiseRef := Some (3 + nextHandle s)%nat;
     audioContextRef := Some (nextHandle s);
     inputContextRef := Some (1 + nextHandle s)%nat;
     streamRef := Some (2 + nextHandle s)%nat;
     processorRef := processorRef s;
     nextStartTimeRef := nextStartTimeRef s; sourcesRef := sourcesRef s;
     nextHandle := (4 + nextHandle s)%nat;
     pendingSessions :=
       register (3 + nextHandle s)%nat [] (pendingSessions s) |}.

(** The state [startSession] leaves when the microphone request fails. *)
Definition start_failed (s : State) : State :=
  {| isActive := isActive s; status := error;
     errorMessage := "Could not access microphone or connect.";
     sessionPromiseRef := sessionPromiseRef s;
     audioContextRef := Some (nextHandle s);
     inputContextRef := Some (1 + nextHandle s)%nat;
     streamRef := streamRef s;
     processorRef := processorRef s;
     nextStartTimeRef := nextStartTimeRef s; sourcesRef := sourcesRef s;
     nextHandle := (2 + nextHandle s)%nat;
     pendingSessions := pendingSessions s |}.

(** The table a call of [then], for a reaction that sends [media], leaves. *)
Definition queued (media : list Blob) (s : State) : list (handle * list Blob) :=
  match sessionPromiseRef s with
  | Some p =>
      match reactions p (pendingSessions s) with
      | Some earlier => register p (earlier ++ media) (pendingSessions s)
      | None => pendingSessions s
      end
  | None => pendingSessions s
  end.

(** The calls of the microtask such a call of [then] queues: none unless
    the session promise has fulfilled. *)
Definition deferred (media : list Blob) (s : State) : list Action :=
  match sessionPromiseRef s with
  | Some p =>
      match reactions p (pendingSessions s) with
      | Some _ => []
      | None => map (SendRealtimeInput p) media
      end
  | None => []
  end.

(** The state [onopen] leaves. *)
Definition opened (files : list UploadedFile) (s : State) : State :=
  {| isActive := true; status := listening; errorMessage := errorMessage s;
     sessionPromiseRef := sessionPromiseRef s;
     audioContextRef := audioContextRef s;
     inputContextRef := inputContextRef s; streamRef := streamRef s;
     processorRef := Some (1 + nextHandle s)%nat;
     nextStartTimeRef := nextStartTimeRef s; sourcesRef := sourcesRef s;
     nextHandle := (2 + nextHandle s)%nat;
     pendingSessions := queued (contextMedia files) s |}.

(** The state a connect promise that fulfils leaves. *)
Definition fulfilled (session : handle) (s : State) : State :=
  match reactions session (pendingSessions s) with
  | Some _ => set_pendingSessions (settle session (pendingSessions s)) s
  | None => s
  end.

(** The state the ['ended'] listener leaves. *)
Definition ended (s : State) (source : handle) : State :=
  let remaining := set_delete source (sourcesRef s) in
  set_status (if Nat.eqb (length remaining) 0 then listening else status s)
    (set_sourcesRef remaining s).

(** *** Concrete inputs *)

(** A state of the running session in which nothing is scheduled: the
    component was mounted and the session opened, with no attachments. *)
Definition listening_state : State :=
  fst (run [] initial [Mount (inr tt); Open 1%nat 2%nat]).

(** A chunk of two silent frames, and the buffer it decodes to. *)
Definition silence : string := "AAAAAA==".

Definition silence_buffer : AudioBuffer :=
  {| channelData := [(inject_Z 0 / 32768)%Q; (inject_Z 0 / 32768)%Q];
     sampleRate := 24000 |}.

(** A state with two buffers scheduled and the cursor ahead of the clock. *)
Definition speaking_state : State :=
  fst (run [] listening_state
         [Message (chunk silence) 5; Message (chunk silence) 5]).

(** The events of one whole session: mount, open, two chunks, the end of
    both buffers, and the user closing the dialog (the component is
    unmounted).  Handles 1 and 2 are the input context and the stream
    created by [startSession]; 6 and 7 are the two source nodes. *)
Definition session_events (b1 b2 : string) (now1 now2 : Q) : list Event :=
  [Mount (inr tt); Open 1%nat 2%nat;
   Message (chunk b1) now1; Message (chunk b2) now2;
   Ended 6%nat; Ended 7%nat; Unmount].

Definition page : UploadedFile :=
  {| file_data := "AAAA"; file_mimeType := "image/png" |}.

End Live.

(** ** Image generation ([services/gemini.ts]) *)

Module Gemini.

(** The parts of a [GenerateContentResponse] that [generateLectureImage]
    reads; every field on the path is optional. *)
Record InlineData : Type := mkInlineData { inlineData_data : option string }.
Record Part : Type := mkPart { inlineData : option InlineData }.
Record Content : Type := mkContent { parts : option (list Part) }.
Record Candidate : Type := mkCandidate { content : option Content }.
Record GenerateContentResponse : Type := mkResponse {
  candidates : option (list Candidate)
}.

Definition imageGenerationFailed : string :=
  "https://picsum.photos/800/450?text=Image+Generation+Failed".

Definition imageUnavailable : string :=
  "https://picsum.photos/800/450?text=Image+Unavailable".

(** A template literal prints a missing value as [undefined]. *)
Definition render (v : option string) : string :=
  match v with
  | Some text => text
  | None => "undefined"
  end.

Definition dataUrl (d : InlineData) : string :=
  ("data:image/png;base64," ++ render (inlineData_data d))%string.

(** [response.candidates?.[0]?.content?.parts || []] *)
Definition partsOf (response : GenerateContentResponse) : list Part :=
  match candidates response with
  | Some (candidate :: _) =>
      match content candidate with
      | Some c =>
          match parts c with
          | Some ps => ps
          | None => []
          end
      | None => []
      end
  | _ => []
  end.

(** The [for ... of] loop with its early [return], then the statement after
    the loop. *)
Fixpoint firstImage (ps : list Part) : string :=
  match ps with
  | [] => imageGenerationFailed
  | part :: rest =>
      match inlineData part with
      | Some d => dataUrl d
      | None => firstImage rest
      end
  end.

(** [try { ... } catch (error) { ... }] on a computation that returns or
    throws. *)
Definition catching {A : Type} (body : exn + A) (h : exn -> exn + A) : exn + A :=
  match body with
  | inl e => h e
  | inr a => inr a
  end.

(** [generateContent] is the remote call: for a prompt it resolves with a
    response or rejects. *)
Definition generateLectureImage
    (generateContent : string -> exn + GenerateContentResponse)
    (prompt : string) : exn + string :=
  catching
    (match generateContent prompt with
     | inl e => inl e
     | inr response => inr (firstImage (partsOf response))
     end)
    (fun error => inr imageUnavailable).

(** A response whose first candidate has the parts [ps]. *)
Definition responseWith (ps : list Part) (others : list Candidate)
  : GenerateContentResponse :=
  mkResponse (Some (mkCandidate (Some (mkContent (Some ps))) :: others)).

End Gemini.

(** ** Sequences of chunks and of callbacks *)

Module Playback.
Import Pcm Live.

(** The start times of buffers of the given durations played back to back
    from time [t]. *)
Fixpoint back_to_back (t : Q) (durations : list Q) : list Q :=
  match durations with
  | [] => []
  | d :: rest => t :: back_to_back (t + d)%Q rest
  end.

(** The messages of a list of chunks, each with the device time at which
    it is handled. *)
Definition chunk_events (arrivals : list (string * Q)) : list Event :=
  map (fun a => Message (chunk (fst a)) (snd a)) arrivals.

(** A chunk that is truthy and decodes to the given buffer. *)
Definition decodes (a : string * Q) (buffer : AudioBuffer) : Prop :=
  nonempty (fst a) = true /\ decodeAudioData (fst a) = inr buffer.

(** The events that do not start a session: everything but mounting,
    retrying, the open callback and the connect promise that fulfils (the
    reactions queued on a promise run when it fulfils, whatever [cleanup]
    did meanwhile). *)
Definition starts_nothing (ev : Event) : bool :=
  match ev with
  | Mount _ | Retry _ | Open _ _ | Fulfilled _ => false
  | _ => true
  end.

End Playback.

(** ** The remaining services ([services/gemini.ts])

    The remote call is given by its outcome: it rejects, or it resolves
    with a response of which the functions read [response.text] or one
    inline-data path.  How the request is built (model name, prompt,
    schema) is not modelled.  [JSON.parse] followed by the type cast is a
    parameter: [None] stands for a [SyntaxError]. *)

Module Service.
Import Live.

Record LectureSection : Type := mkLectureSection {
  heading : string;
  section_content : string;
  visualPrompt : string
}.

Record LectureContent : Type := mkLectureContent {
  title : string;
  summary : string;
  sections : list LectureSection
}.

Record QuizQuestion : Type := mkQuizQuestion {
  question : string;
  options : list string;
  correctAnswerIndex : Z
}.

(** What a service function can throw. *)
Inductive thrown : Type :=
| Rejected (e : exn)     (* the remote call rejected *)
| NoResponse             (* new Error("No response from Gemini") *)
| SyntaxError.           (* JSON.parse on a text that is not JSON *)

(** [!text]: the text is undefined or empty. *)
Definition noText (text : option string) : bool :=
  match text with
  | Some t => negb (nonempty t)
  | None => true
  end.

Definition textOf (text : option string) : string :=
  match text with
  | Some t => t
  | None => ""
  end.

Definition generateLecture
    (outcome : exn + option string)
    (parse : string -> option LectureContent) : thrown + LectureContent :=
  match outcome with
  | inl e => inl (Rejected e)
  | inr text =>
      if noText text then inl NoResponse
      else match parse (textOf text) with
           | Some lecture => inr lecture
           | None => inl SyntaxError
           end
  end.

Definition generateQuiz
    (outcome : exn + option string)
    (parse : string -> option (list QuizQuestion)) : thrown + list QuizQuestion :=
  match outcome with
  | inl e => inl (Rejected e)
  | inr text =>
      if noText text then inr []
      else match parse (textOf text) with
           | Some questions => inr questions
           | None => inl SyntaxError
           end
  end.

(** The parsed object has an optional [chapters] property:
    [result.chapters || []]. *)
Definition extractChapters
    (outcome : exn + option string)
    (parse : string -> option (option (list string))) : thrown + list string :=
  match outcome with
  | inl e => inl (Rejected e)
  | inr text =>
      if noText text then inr []
      else match parse (textOf text) with
           | Some (Some chapters) => inr chapters
           | Some None => inr []
           | None => inl SyntaxError
           end
  end.

(** *** Text to speech *)

(** The function [playTTS] returns: it does nothing, or it stops the
    source and closes the context it was made for. *)
Inductive StopFn : Type :=
| StopNothing
| StopPlayback (source ctx : handle).

Inductive TtsCall : Type :=
| Synthesize (text : string)          (* ai.models.generateContent *)
| TtsConsoleError
| CallOnEnded                         (* onEnded() *)
| TtsNewContext (ctx : handle)
| TtsDecode (ctx : handle) (bytes : list Z)   (* audioCtx.decodeAudioData *)
| TtsCreateSource (ctx source : handle)
| TtsConnect (source ctx : handle)
| TtsSetOnEnded (source : handle)     (* source.onended = onEnded *)
| TtsStart (source : handle)
| TtsStop (source : handle)           (* source.stop(), in the stop function *)
| TtsClose (ctx : handle).            (* audioCtx.close(), in the stop function *)

(** [playTTS].  [outcome] is the remote call with the value read at
    [candidates?.[0]?.content?.parts?.[0]?.inlineData?.data]; [decoder] is
    the browser's [decodeAudioData] on the bytes; [ctx] and [source] name
    the objects created.  The result is the calls made and the function
    returned; the [catch] block covers everything.  The remote call, [atob]
    and the decoder are the calls given a failing outcome. *)
Definition playTTS
    (text : string)
    (outcome : exn + option string)
    (decoder : list Z -> exn + unit)
    (ctx source : handle) : list TtsCall * StopFn :=
  let failed (done : list TtsCall) :=
    (done ++ [TtsConsoleError; CallOnEnded], StopNothing) in
  match outcome with
  | inl _ => failed [Synthesize text]
  | inr base64Audio =>
      if noText base64Audio then ([Synthesize text; CallOnEnded], StopNothing)
      else
        match Base64.atob (textOf base64Audio) with
        | inl _ => failed [Synthesize text; TtsNewContext ctx]
        | inr bytes =>
            match decoder bytes with
            | inl _ =>
                failed [Synthesize text; TtsNewContext ctx; TtsDecode ctx bytes]
            | inr _ =>
                ([Synthesize text; TtsNewContext ctx; TtsDecode ctx bytes;
                  TtsCreateSource ctx source; TtsConnect source ctx;
                  TtsSetOnEnded source; TtsStart source],
                 StopPlayback source ctx)
            end
        end
  end.


(** How often [onEnded] was called in a trace. *)
Fixpoint onEndedCalls (t : list TtsCall) : nat :=
  match t with
  | [] => O
  | CallOnEnded :: r => S (onEndedCalls r)
  | _ :: r => onEndedCalls r
  end.

(** Whether playback was started in a trace. *)
Fixpoint started_playback (t : list TtsCall) : bool :=
  match t with
  | [] => false
  | TtsStart _ :: _ => true
  | _ :: r => started_playback r
  end.

(** *** Uploaded files *)

(** [s.split(sep)] for a one-character separator. *)
Fixpoint split_on (sep : ascii) (s : string) : list string :=
  match s with
  | EmptyString => [EmptyString]
  | String c rest =>
      if Ascii.eqb c sep then EmptyString :: split_on sep rest
      else match split_on sep rest with
           | first :: others => String c first :: others
           | [] => [String c EmptyString]
           end
  end.

(** [base64String.split(',')[1]] in [handleFileUpload]; [None] is
    [undefined]. *)
Definition base64Part (base64String : string) : option string :=
  nth_error (split_on ","%char base64String) 1.

(** The data URL [readAsDataURL] produces for a file of the given type and
    bytes. *)
Definition dataURL (mime : string) (bytes : list Z) : string :=
  ("data:" ++ mime ++ ";base64," ++ Base64.btoa bytes)%string.

(** A text without a comma. *)
Fixpoint no_comma (s : string) : bool :=
  match s with
  | EmptyString => true
  | String c rest => negb (Ascii.eqb c ","%char) && no_comma rest
  end.

End Service.

(** ** The application shell ([App.tsx]) *)

Module App.
Import Live Service.

(** JavaScript objects used as maps ([Record<number, ...>]) are finite maps
    of stdpp; its names are used qualified. *)
Local Notation gmap := stdpp.gmap.gmap.
Local Notation lookup := stdpp.base.lookup.
Local Notation insert := stdpp.base.insert.
Local Notation size := stdpp.base.size.
Local Notation empty := stdpp.base.empty.

Inductive AppState : Type := UPLOAD | PROCESSING | LECTURE | QUIZ.

(** What the user is shown besides the view. *)
Inductive Notice : Type :=
| Alert (text : string)
| ConsoleErrorLogged.

(** The React state of [App] and its one ref.  [generatedImages] and
    [quizAnswers] are JavaScript objects with numeric keys.  The selected
    language only enters the request and is left out. *)
Record Model : Type := mkModel {
  state : AppState;
  files : list UploadedFile;
  isLoading : bool;
  loadingMessage : string;
  lecture : option LectureContent;
  generatedImages : gmap nat string;
  quiz : list QuizQuestion;
  showLiveProfessor : bool;
  isReadingLecture : bool;
  stopTTSRef : option StopFn;
  quizAnswers : gmap nat Z;
  quizSubmitted : bool
}.

Definition initialModel : Model :=
  {| state := UPLOAD; files := []; isLoading := false; loadingMessage := "";
     lecture := None; generatedImages := empty; quiz := [];
     showLiveProfessor := false; isReadingLecture := false; stopTTSRef := None;
     quizAnswers := empty; quizSubmitted := false |}.

Definition set_state (v : AppState) (a : Model) : Model :=
  mkModel v (files a) (isLoading a) (loadingMessage a) (lecture a)
    (generatedImages a) (quiz a) (showLiveProfessor a) (isReadingLecture a)
    (stopTTSRef a) (quizAnswers a) (quizSubmitted a).

Definition set_files (v : list UploadedFile) (a : Model) : Model :=
  mkModel (state a) v (isLoading a) (loadingMessage a) (lecture a)
    (generatedImages a) (quiz a) (showLiveProfessor a) (isReadingLecture a)
    (stopTTSRef a) (quizAnswers a) (quizSubmitted a).

Definition set_isLoading (v : bool) (a : Model) : Model :=
  mkModel (state a) (files a) v (loadingMessage a) (lecture a)
    (generatedImages a) (quiz a) (showLiveProfessor a) (isReadingLecture a)
    (stopTTSRef a) (quizAnswers a) (quizSubmitted a).

Definition set_loadingMessage (v : string) (a : Model) : Model :=
  mkModel (state a) (files a) (isLoading a) v (lecture a)
    (generatedImages a) (quiz a) (showLiveProfessor a) (isReadingLecture a)
    (stopTTSRef a) (quizAnswers a) (quizSubmitted a).

Definition set_lecture (v : option LectureContent) (a : Model) : Model :=
  mkModel (state a) (files a) (isLoading a) (loadingMessage a) v
    (generatedImages a) (quiz a) (showLiveProfessor a) (isReadingLecture a)
    (stopTTSRef a) (quizAnswers a) (quizSubmitted a).

Definition set_generatedImages (v : gmap nat string) (a : Model) : Model :=
  mkModel (state a) (files a) (isLoading a) (loadingMessage a) (lecture a)
    v (quiz a) (showLiveProfessor a) (isReadingLecture a)
    (stopTTSRef a) (quizAnswers a) (quizSubmitted a).

Definition set_quiz (v : list QuizQuestion) (a : Model) : Model :=
  mkModel (state a) (files a) (isLoading a) (loadingMessage a) (lecture a)
    (generatedImages a) v (showLiveProfessor a) (isReadingLecture a)
    (stopTTSRef a) (quizAnswers a) (quizSubmitted a).



Definition set_quizAnswers (v : gmap nat Z) (a : Model) : Model :=
  mkModel (state a) (files a) (isLoading a) (loadingMessage a) (lecture a)
    (generatedImages a) (quiz a) (showLiveProfessor a) (isReadingLecture a)
    (stopTTSRef a) v (quizSubmitted a).

Definition set_quizSubmitted (v : bool) (a : Model) : Model :=
  mkModel (state a) (files a) (isLoading a) (loadingMessage a) (lecture a)
    (generatedImages a) (quiz a) (showLiveProfessor a) (isReadingLecture a)
    (stopTTSRef a) (quizAnswers a) v.

(** *** Lecture generation *)

(** [startLectureGeneration].  [outcome] is what
    [generateLecture(files, selectedLanguage)] settles with.  The image
    requests the handler starts are the tasks of [imageTasks]; each one
    ends in [imageLoaded]. *)
Definition startLectureGeneration (outcome : thrown + LectureContent) (a : Model)
  : Model * list Notice :=
  match files a with
  | [] => (a, [])
  | _ :: _ =>
      let a1 := set_loadingMessage "Professor is analyzing your books..."
                  (set_isLoading true a) in
      match outcome with
      | inr content =>
          (set_isLoading false
             (set_state LECTURE
                (set_loadingMessage "Creating visual aids..."
                   (set_lecture (Some content) a1))), [])
      | inl _ =>
          (set_isLoading false a1,
           [Alert "Failed to generate lecture. Please try again.";
            ConsoleErrorLogged])
      end
  end.

(** [content.sections.forEach(async (section, index) => ...)]: one task per
    section, with its index and its prompt. *)
Definition imageTasks (content : LectureContent) : list (nat * string) :=
  combine (seq 0 (length (sections content)))
          (map visualPrompt (sections content)).

(** The end of one task: [setGeneratedImages(prev => ({...prev, [index]:
    imageUrl}))] once [generateLectureImage] has resolved. *)
Definition imageLoaded
    (generateContent : string -> exn + Gemini.GenerateContentResponse)
    (task : nat * string) (a : Model) : Model :=
  match Gemini.generateLectureImage generateContent (snd task) with
  | inr imageUrl =>
      set_generatedImages (insert (fst task) imageUrl (generatedImages a)) a
  | inl _ => a
  end.

(** The tasks ending one after the other, in the given order. *)
Definition imagesLoaded
    (generateContent : string -> exn + Gemini.GenerateContentResponse)
    (order : list (nat * string)) (a : Model) : Model :=
  fold_left (fun acc task => imageLoaded generateContent task acc) order a.

(** *** Reading the lecture aloud *)



(** *** The quiz *)

Definition startQuiz (outcome : thrown + list QuizQuestion) (a : Model)
  : Model * list Notice :=
  match lecture a with
  | None => (a, [])
  | Some _ =>
      let a1 := set_loadingMessage "Preparing your quiz..." (set_isLoading true a) in
      match outcome with
      | inr questions =>
          (set_isLoading false (set_state QUIZ (set_quiz questions a1)), [])
      | inl _ => (set_isLoading false a1, [Alert "Could not generate quiz."])
      end
  end.

(** The click on an option:
    [!quizSubmitted && setQuizAnswers(prev => ({...prev, [idx]: optIdx}))]. *)
Definition selectAnswer (idx optIdx : nat) (a : Model) : Model :=
  if quizSubmitted a then a
  else set_quizAnswers (insert idx (Z.of_nat optIdx) (quizAnswers a)) a.

Definition submitQuiz (a : Model) : Model := set_quizSubmitted true a.

(** [disabled={Object.keys(quizAnswers).length !== quiz.length}] *)
Definition submitDisabled (a : Model) : bool :=
  negb (Nat.eqb (size (quizAnswers a)) (length (quiz a))).

(** [quizAnswers[i] === q.correctAnswerIndex]: a missing answer is
    [undefined] and equals no number. *)
Definition isCorrect (quizAnswers : gmap nat Z) (i : nat) (q : QuizQuestion) : bool :=
  match lookup i quizAnswers with
  | Some answer => Z.eqb answer (correctAnswerIndex q)
  | None => false
  end.

(** The loop of [calculateScore], from index [i] on. *)
Fixpoint scoreFrom (i : nat) (quiz : list QuizQuestion) (quizAnswers : gmap nat Z)
    (score : nat) : nat :=
  match quiz with
  | [] => score
  | q :: rest =>
      scoreFrom (S i) rest quizAnswers
        (if isCorrect quizAnswers i q then S score else score)
  end.

Definition calculateScore (a : Model) : nat :=
  scoreFrom 0 (quiz a) (quizAnswers a) 0.

(** The buttons that only set state: [Back to Lecture], [New Class] in the
    header, and [Start New Class] under the score. *)
Definition backToLecture (a : Model) : Model := set_state LECTURE a.

Definition newClass (a : Model) : Model := set_state UPLOAD a.

Definition startNewClass (a : Model) : Model :=
  set_generatedImages empty
    (set_quizSubmitted false
       (set_quizAnswers empty
          (set_lecture None (set_files [] (set_state UPLOAD a))))).

(** The keys of an object, [Object.keys]. *)
Definition keys_of {A : Type} (m : gmap nat A) : list nat :=
  map fst (stdpp.fin_maps.map_to_list m).

(** A series of clicks on options. *)
Definition selectAnswers (clicks : list (nat * nat)) (a : Model) : Model :=
  fold_left (fun acc click => selectAnswer (fst click) (snd click) acc) clicks a.

End App.

(** * Facts *)

(** ** Base64 *)

Module Base64Facts.
Import Base64.

(** Induction on a list three elements at a time. *)
Lemma list_ind3 (A : Type) (P : list A -> Prop) :
  P [] -> (forall a, P [a]) -> (forall a b, P [a; b]) ->
  (forall a b c rest, P rest -> P (a :: b :: c :: rest)) ->
  forall l, P l.
Proof.
  intros H0 H1 H2 H3.
  assert (G : forall l, P l /\ (forall a, P (a :: l)) /\ (forall a b, P (a :: b :: l))).
  { induction l as [|x l [IH0 [IH1 IH2]]].
    - repeat split; auto.
    - repeat split; auto. }
  intro l. apply G.
Qed.

(** Induction on a list two elements at a time. *)
Lemma list_ind2 (A : Type) (P : list A -> Prop) :
  P [] -> (forall a, P [a]) ->
  (forall a b rest, P rest -> P (a :: b :: rest)) ->
  forall l, P l.
Proof.
  intros H0 H1 H2.
  assert (G : forall l, P l /\ (forall a, P (a :: l))).
  { induction l as [|x l [IH0 IH1]]; split; auto. }
  intro l. apply G.
Qed.

Lemma sextet_enum (P : Z -> bool) :
  forallb (fun k => P (Z.of_nat k)) (seq 0 64) = true ->
  forall v, sextet v -> P v = true.
Proof.
  intros H v [Hlo Hhi].
  rewrite forallb_forall in H.
  rewrite <- (Z2Nat.id v) by assumption.
  apply H. apply in_seq. lia.
Qed.

Lemma b64val_b64char v : sextet v -> b64val (b64char v) = Some v.
Proof.
  intro Hv.
  pose (P := fun v => match b64val (b64char v) with
                      | Some w => Z.eqb w v
                      | None => false
                      end).
  assert (H : P v = true) by (apply sextet_enum; [vm_compute; reflexivity | assumption]).
  unfold P in H. destruct (b64val (b64char v)) as [w|]; [|discriminate].
  apply Z.eqb_eq in H. now subst.
Qed.

Lemma b64char_not_pad v : sextet v -> Ascii.eqb (b64char v) pad = false.
Proof.
  intro Hv.
  apply (sextet_enum (fun v => negb (Ascii.eqb (b64char v) pad))) in Hv;
    [|vm_compute; reflexivity].
  now apply negb_true_iff in Hv.
Qed.

Lemma b64char_not_whitespace v : sextet v -> is_ascii_whitespace (b64char v) = false.
Proof.
  intro Hv.
  apply (sextet_enum (fun v => negb (is_ascii_whitespace (b64char v)))) in Hv;
    [|vm_compute; reflexivity].
  now apply negb_true_iff in Hv.
Qed.

Lemma sextets_of_bytes_range bs :
  Forall byte bs -> Forall sextet (sextets_of_bytes bs).
Proof.
  induction bs as [|a|a b|a b c rest IH] using list_ind3; intro H.
  - constructor.
  - inversion_clear H as [|? ? Ha _]. unfold byte in Ha.
    cbn [sextets_of_bytes]. repeat constructor; unfold sextet;
      Z.to_euclidean_division_equations; lia.
  - inversion_clear H as [|? ? Ha H']. inversion_clear H' as [|? ? Hb _].
    unfold byte in *. cbn [sextets_of_bytes].
    repeat constructor; unfold sextet; Z.to_euclidean_division_equations; lia.
  - inversion_clear H as [|? ? Ha H']. inversion_clear H' as [|? ? Hb H''].
    inversion_clear H'' as [|? ? Hc Hrest]. unfold byte in *.
    cbn [sextets_of_bytes].
    repeat (constructor; [unfold sextet; Z.to_euclidean_division_equations; lia|]).
    now apply IH.
Qed.

Lemma sextets_of_chars_b64char vs :
  Forall sextet vs -> sextets_of_chars (map b64char vs) = Some vs.
Proof.
  induction 1 as [|v vs Hv _ IH]; [reflexivity|].
  cbn [map sextets_of_chars]. now rewrite b64val_b64char, IH.
Qed.

Lemma bytes_of_sextets_of_bytes bs :
  Forall byte bs -> bytes_of_sextets (sextets_of_bytes bs) = bs.
Proof.
  induction bs as [|a|a b|a b c rest IH] using list_ind3; intro H.
  - reflexivity.
  - inversion_clear H as [|? ? Ha _]. unfold byte in Ha.
    cbn [sextets_of_bytes bytes_of_sextets]. f_equal.
    Z.to_euclidean_division_equations; lia.
  - inversion_clear H as [|? ? Ha H']. inversion_clear H' as [|? ? Hb _].
    unfold byte in *. cbn [sextets_of_bytes bytes_of_sextets].
    f_equal; [|f_equal]; Z.to_euclidean_division_equations; lia.
  - inversion_clear H as [|? ? Ha H']. inversion_clear H' as [|? ? Hb H''].
    inversion_clear H'' as [|? ? Hc Hrest]. unfold byte in *.
    cbn [sextets_of_bytes bytes_of_sextets]. rewrite (IH Hrest).
    f_equal; [|f_equal; [|f_equal]]; Z.to_euclidean_division_equations; lia.
Qed.

Lemma padding_step n : padding (S (S (S n))) = padding n.
Proof.
  unfold padding.
  replace (S (S (S n))) with (n + 1 * 3)%nat by lia.
  now rewrite Nat.Div0.mod_add.
Qed.

(** The three shapes of an encoding: how many [=] follow, and the number of
    sextets modulo four. *)
Lemma encoding_shape bs :
  (padding (length bs) = [] /\ Nat.modulo (length (sextets_of_bytes bs)) 4 = 0%nat) \/
  (padding (length bs) = [pad] /\ Nat.modulo (length (sextets_of_bytes bs)) 4 = 3%nat) \/
  (padding (length bs) = [pad; pad] /\ Nat.modulo (length (sextets_of_bytes bs)) 4 = 2%nat).
Proof.
  induction bs as [|a|a b|a b c rest IH] using list_ind3.
  - left. split; reflexivity.
  - right. right. split; reflexivity.
  - right. left. split; reflexivity.
  - cbn [length sextets_of_bytes]. rewrite padding_step.
    replace (S (S (S (S (length (sextets_of_bytes rest))))))
      with (length (sextets_of_bytes rest) + 1 * 4)%nat by lia.
    now rewrite Nat.Div0.mod_add.
Qed.

Lemma filter_id (A : Type) (f : A -> bool) (l : list A) :
  Forall (fun x => f x = true) l -> filter f l = l.
Proof.
  induction 1 as [|x l Hx _ IH]; [reflexivity|].
  cbn [filter]. now rewrite Hx, IH.
Qed.

Lemma drop_pad_id n l :
  Forall (fun c => Ascii.eqb c pad = false) l -> drop_pad n l = l.
Proof.
  intro H. destruct n as [|n]; [reflexivity|].
  destruct H as [|c l Hc _]; [reflexivity|].
  cbn [drop_pad]. now rewrite Hc.
Qed.

Lemma drop_pad_pad n l : drop_pad (S n) (pad :: l) = drop_pad n l.
Proof. reflexivity. Qed.

Lemma padding_no_whitespace n :
  Forall (fun c => negb (is_ascii_whitespace c) = true) (padding n).
Proof.
  unfold padding. destruct (Nat.modulo n 3) as [|[|[|k]]]; repeat constructor.
Qed.

Lemma strip_whitespace_btoa bs :
  Forall byte bs -> strip_whitespace (btoa_chars bs) = btoa_chars bs.
Proof.
  intro H. apply filter_id. apply Forall_app. split.
  - apply Forall_map.
    eapply Forall_impl; [|apply sextets_of_bytes_range, H].
    intros v Hv. cbn beta. now rewrite b64char_not_whitespace.
  - apply padding_no_whitespace.
Qed.

Lemma strip_padding_btoa bs :
  Forall byte bs ->
  strip_padding (btoa_chars bs) = map b64char (sextets_of_bytes bs).
Proof.
  intro H.
  assert (Hbody : Forall (fun c => Ascii.eqb c pad = false)
                    (rev (map b64char (sextets_of_bytes bs)))).
  { apply Forall_rev, Forall_map.
    eapply Forall_impl; [|apply sextets_of_bytes_range, H].
    intros v Hv. now apply b64char_not_pad. }
  assert (Hlen : Nat.eqb (Nat.modulo (length (btoa_chars bs)) 4) 0 = true).
  { unfold btoa_chars.
    rewrite length_app, length_map, Nat.Div0.add_mod.
    destruct (encoding_shape bs) as [[Hp Hl]|[[Hp Hl]|[Hp Hl]]];
      rewrite Hp, Hl; reflexivity. }
  unfold strip_padding. rewrite Hlen. unfold btoa_chars.
  rewrite rev_app_distr.
  destruct (encoding_shape bs) as [[Hp _]|[[Hp _]|[Hp _]]];
    rewrite Hp; cbn [rev app]; rewrite ?drop_pad_pad;
    rewrite drop_pad_id by assumption; apply rev_involutive.
Qed.

(** [atob] undoes [btoa] on every byte sequence. *)
Lemma atob_btoa bs : Forall byte bs -> atob (btoa bs) = inr bs.
Proof.
  intro H. unfold atob, btoa, atob_chars.
  rewrite list_ascii_of_string_of_list_ascii.
  rewrite strip_whitespace_btoa, strip_padding_btoa by assumption.
  rewrite length_map.
  destruct (encoding_shape bs) as [[_ Hl]|[[_ Hl]|[_ Hl]]]; rewrite Hl;
    cbn [Nat.eqb];
    rewrite sextets_of_chars_b64char by (apply sextets_of_bytes_range, H);
    now rewrite bytes_of_sextets_of_bytes.
Qed.

End Base64Facts.

(** ** PCM helpers *)

Module PcmFacts.
Import Base64 Base64Facts Pcm.

Lemma ToInt16_range x : int16 (ToInt16 x).
Proof.
  unfold ToInt16, int16.
  pose proof (Z.mod_pos_bound (trunc x) 65536 ltac:(lia)) as Hm.
  destruct (Z.ltb_spec (trunc x mod 65536) 32768); lia.
Qed.

(** An integer already in the int16 range is stored unchanged. *)
Lemma ToInt16_small x : int16 (trunc x) -> ToInt16 x = trunc x.
Proof.
  unfold ToInt16, int16. intro H.
  destruct (Z.ltb_spec (trunc x mod 65536) 32768);
    Z.to_euclidean_division_equations; lia.
Qed.

Lemma bytes_of_int16_range v : Forall byte (bytes_of_int16 v).
Proof.
  unfold bytes_of_int16, byte.
  repeat constructor; Z.to_euclidean_division_equations; lia.
Qed.

Lemma int16_of_bytes_of_int16 v :
  int16 v ->
  int16_of_bytes ((v mod 65536) mod 256) ((v mod 65536) / 256) = v.
Proof.
  unfold int16, int16_of_bytes. intro H.
  destruct (Z.ltb_spec ((v mod 65536) mod 256 + 256 * ((v mod 65536) / 256)) 32768);
    Z.to_euclidean_division_equations; lia.
Qed.

Lemma bytes_range vs : Forall byte (flat_map bytes_of_int16 vs).
Proof.
  induction vs as [|v vs IH]; [constructor|].
  cbn [flat_map]. apply Forall_app. split; [apply bytes_of_int16_range | exact IH].
Qed.

Lemma bytes_even_length vs :
  Nat.even (length (flat_map bytes_of_int16 vs)) = true.
Proof. induction vs as [|v vs IH]; [reflexivity | exact IH]. Qed.

Lemma int16_elements_of_bytes vs :
  Forall int16 vs -> int16_elements (flat_map bytes_of_int16 vs) = vs.
Proof.
  induction 1 as [|v vs Hv _ IH]; [reflexivity|].
  cbn [flat_map bytes_of_int16 app int16_elements].
  now rewrite IH, int16_of_bytes_of_int16.
Qed.

(** The [Uint8Array] view of an [Int16Array] reads back as the same
    elements. *)
Lemma Int16Array_of_bytes_of_int16 vs :
  Forall int16 vs -> Int16Array_of_bytes (flat_map bytes_of_int16 vs) = inr vs.
Proof.
  intro H. unfold Int16Array_of_bytes.
  now rewrite bytes_even_length, int16_elements_of_bytes.
Qed.

Lemma Int16Array_of_bytes_odd bs :
  Nat.odd (length bs) = true -> Int16Array_of_bytes bs = inl RangeError.
Proof.
  intro H. unfold Int16Array_of_bytes. now rewrite <- Nat.negb_odd, H.
Qed.

Lemma Int16Array_of_bytes_even bs :
  Nat.even (length bs) = true ->
  Int16Array_of_bytes bs = inr (int16_elements bs).
Proof. intro H. unfold Int16Array_of_bytes. now rewrite H. Qed.

(** What [decodeAudioData] returns on the output of [createBlob], for any
    non-empty frame. *)
Lemma decode_createBlob samples :
  samples <> [] ->
  decodeAudioData (data (createBlob samples)) =
  inr {| channelData :=
           map (fun x => (inject_Z (ToInt16 (x * 32768)) / 32768)%Q) samples;
         sampleRate := 24000 |}.
Proof.
  intro Hne. unfold decodeAudioData, createBlob. cbn [data].
  rewrite atob_btoa by apply bytes_range.
  rewrite Int16Array_of_bytes_of_int16.
  - rewrite length_map. destruct samples as [|x r]; [contradiction|].
    cbn [length createBuffer]. now rewrite map_map.
  - apply Forall_map, Forall_forall. intros x _. apply ToInt16_range.
Qed.

(** Below full scale a sample is stored without wrap-around. *)
Lemma ToInt16_scaled x :
  (-1 <= x)%Q -> (x < 1)%Q -> ToInt16 (x * 32768) = trunc (x * 32768).
Proof.
  intros Hlo Hhi. apply ToInt16_small.
  destruct x as [p q]. unfold Qle, Qlt in *. cbn in Hlo, Hhi.
  unfold int16, trunc. cbn [Qnum Qden Qmult].
  rewrite Pos.mul_1_r.
  Z.to_euclidean_division_equations; nia.
Qed.

(** One sample below full scale comes back within one quantization step. *)
Lemma sample_roundtrip x :
  (-1 <= x)%Q -> (x < 1)%Q ->
  (Qabs (inject_Z (ToInt16 (x * 32768)) / 32768 - x) <= 1 # 32768)%Q.
Proof.
  intros Hlo Hhi. rewrite ToInt16_scaled by assumption.
  apply Qabs_Qle_condition.
  destruct x as [p q]. unfold Qle, Qlt in *. cbn in Hlo, Hhi.
  unfold trunc. cbn [Qnum Qden Qmult].
  rewrite Pos.mul_1_r.
  set (t := Z.quot (p * 32768) (Z.pos q)).
  assert (Ht : Z.abs (t * Z.pos q - p * 32768) < Z.pos q).
  { subst t. Z.to_euclidean_division_equations; nia. }
  clearbody t.
  unfold Qminus, Qplus, Qopp, Qdiv, Qmult, Qinv, inject_Z.
  cbn [Qnum Qden]. cbn.
  split; rewrite ?Pos2Z.inj_mul; nia.
Qed.

(** Every frame whose samples lie in [-1, 1) comes back within one
    quantization step per sample. *)
Lemma roundtrip_below_full_scale samples :
  samples <> [] ->
  Forall (fun x => (-1 <= x)%Q /\ (x < 1)%Q) samples ->
  exists buffer,
    decodeAudioData (data (createBlob samples)) = inr buffer /\
    Forall2 (fun x y => (Qabs (y - x) <= 1 # 32768)%Q) samples (channelData buffer).
Proof.
  intros Hne Hr. eexists. split; [apply decode_createBlob, Hne|].
  cbn [channelData]. clear Hne.
  induction Hr as [|x r [Hlo Hhi] _ IH]; [constructor|].
  cbn [map]. constructor; [now apply sample_roundtrip | exact IH].
Qed.

(** C1 (code defect).  The frame made of the single full-scale sample 1.0
    lies in [-1, 1], yet [createBlob] stores 1.0 * 32768 = 32768 into an
    [Int16Array], where it wraps to -32768; [decodeAudioData] returns -1.0,
    which is two units away from the sample, not 1/32768. *)
Theorem full_scale_sample_wraps :
  exists y,
    decodeAudioData (data (createBlob [1%Q])) =
      inr {| channelData := [y]; sampleRate := 24000 |} /\
    (y == -1)%Q /\ (Qabs (y - 1) == 2)%Q /\ ~ (Qabs (y - 1) <= 1 # 32768)%Q.
Proof.
  exists (-32768 # 32768)%Q. split; [vm_compute; reflexivity|].
  split; [reflexivity|]. split; [reflexivity|].
  intro H. vm_compute in H. apply H. reflexivity.
Qed.

(** C4.  When the text decodes to an odd number of bytes, [decodeAudioData]
    fails, and it fails with the [RangeError] that [new Int16Array] raises
    on a buffer whose byte length is not a multiple of 2: this is the
    malformed-chunk error of the component. *)
Theorem odd_byte_length_rejected base64 bytes :
  Base64.atob base64 = inr bytes ->
  Nat.odd (length bytes) = true ->
  decodeAudioData base64 = inl RangeError.
Proof.
  intros Ha Hodd. unfold decodeAudioData.
  now rewrite Ha, Int16Array_of_bytes_odd.
Qed.

Lemma odd_byte_length_rejected_witness :
  decodeAudioData "QQ==" = inl RangeError.
Proof.
  apply (odd_byte_length_rejected "QQ==" [65]); reflexivity.
Defined.

(** [RangeError] is raised by nothing else: it tells exactly the chunks
    whose byte length is odd. *)
Lemma RangeError_iff_odd base64 :
  decodeAudioData base64 = inl RangeError <->
  exists bytes, Base64.atob base64 = inr bytes /\ Nat.odd (length bytes) = true.
Proof.
  split.
  - unfold decodeAudioData, Base64.atob, Base64.atob_chars. intro H.
    fold (Base64.atob_chars (list_ascii_of_string base64)) in *.
    unfold Base64.atob_chars in *.
    destruct (Nat.eqb _ 1); [discriminate|].
    destruct (Base64.sextets_of_chars _) as [vs|]; [|discriminate].
    exists (Base64.bytes_of_sextets vs). split; [reflexivity|].
    destruct (Nat.odd (length (Base64.bytes_of_sextets vs))) eqn:O; [reflexivity|].
    exfalso.
    assert (Ev : Nat.even (length (Base64.bytes_of_sextets vs)) = true).
    { rewrite <- Nat.negb_odd, O. reflexivity. }
    rewrite (Int16Array_of_bytes_even _ Ev) in H.
    destruct (int16_elements (Base64.bytes_of_sextets vs)); discriminate.
  - intros [bytes [Ha Ho]]. unfold decodeAudioData.
    now rewrite Ha, Int16Array_of_bytes_odd.
Qed.

End PcmFacts.

(** ** The live session component *)

Module LiveFacts.
Import Pcm PcmFacts Live.
Local Open Scope live_scope.

Ltac unfold_m :=
  unfold withSession;
  unfold bind, get, modify, emit, ret, lift, alloc, try_catch.

Lemma forEach_emit (A : Type) (f : A -> Action) (l : list A) (s : State) :
  forEach l (fun x => emit (f x)) s = (s, map f l, inr tt).
Proof.
  induction l as [|x l IH]; [reflexivity|].
  cbn [forEach map]. unfold bind at 1. unfold emit at 1. now rewrite IH.
Qed.

Lemma forEach_calls (A : Type) (f : A -> Action) (l : list A) (s : State) :
  forEach l (fun x s' => (s', [f x], inr tt)) s = (s, map f l, inr tt).
Proof. exact (forEach_emit A f l s). Qed.

Lemma cleanup_spec s : cleanup s = (cleaned s, cleanup_trace s, inr tt).
Proof.
  destruct s as [a st em sp ac ic sr pr c so nh pd].
  unfold cleanup, cleaned, cleanup_trace.
  destruct pr, ic, sr, ac; unfold_m; cbn; rewrite forEach_calls; cbn;
    rewrite ?app_nil_r; reflexivity.
Qed.

Lemma stopped_app t u : stopped (t ++ u) = stopped t ++ stopped u.
Proof.
  induction t as [|a t IH]; [reflexivity|].
  destruct a; cbn [app stopped]; now rewrite IH.
Qed.

Lemma stopped_SourceStop l : stopped (map SourceStop l) = l.
Proof. induction l as [|x l IH]; [reflexivity|]. cbn. now rewrite IH. Qed.

Lemma cleanups_app t u : (cleanups (t ++ u) = cleanups t + cleanups u)%nat.
Proof.
  induction t as [|a t IH]; [reflexivity|].
  destruct a; cbn [app cleanups]; rewrite IH; reflexivity.
Qed.

Lemma cleanups_SourceStop l : cleanups (map SourceStop l) = O.
Proof. induction l as [|x l IH]; [reflexivity|]. exact IH. Qed.

Lemma stopped_cleanup_trace s : stopped (cleanup_trace s) = sourcesRef s.
Proof.
  unfold cleanup_trace.
  destruct (inputContextRef s), (processorRef s), (streamRef s), (audioContextRef s);
    cbn [opt_action app stopped]; rewrite ?stopped_app, stopped_SourceStop;
    cbn; rewrite ?app_nil_r; reflexivity.
Qed.

Lemma cleanups_cleanup_trace s : cleanups (cleanup_trace s) = 1%nat.
Proof.
  unfold cleanup_trace.
  destruct (inputContextRef s), (processorRef s), (streamRef s), (audioContextRef s);
    cbn [opt_action app cleanups]; rewrite ?cleanups_app, cleanups_SourceStop;
    reflexivity.
Qed.

Lemma cleanup_trace_cleaned s : cleanup_trace (cleaned s) = [CallCleanup].
Proof. reflexivity. Qed.

Lemma cleaned_cleaned s : cleaned (cleaned s) = cleaned s.
Proof.
  unfold cleaned. cbn.
  destruct (processorRef s), (inputContextRef s); reflexivity.
Qed.

(** *** The schedule cursor *)

Lemma Math_max_le_l x y : (x <= Math_max x y)%Q.
Proof.
  unfold Math_max. destruct (Qle_bool x y) eqn:E.
  - now apply Qle_bool_iff.
  - apply Qle_refl.
Qed.

Lemma Math_max_le_r x y : (y <= Math_max x y)%Q.
Proof.
  unfold Math_max. destruct (Qle_bool x y) eqn:E.
  - apply Qle_refl.
  - destruct (Qlt_le_dec x y) as [L|L]; [|exact L].
    apply Qlt_le_weak, Qle_bool_iff in L. congruence.
Qed.

Lemma Math_max_r x y : (x <= y)%Q -> Math_max x y = y.
Proof. intro H. unfold Math_max. apply Qle_bool_iff in H. now rewrite H. Qed.

Lemma Math_max_l x y : (y <= x)%Q -> (Math_max x y == x)%Q.
Proof.
  intro H. unfold Math_max. destruct (Qle_bool x y) eqn:E.
  - apply Qle_bool_iff in E. now apply Qle_antisym.
  - reflexivity.
Qed.

Lemma decode_duration_pos base64 buffer :
  decodeAudioData base64 = inr buffer -> (0 < duration buffer)%Q.
Proof.
  unfold decodeAudioData. intro H.
  destruct (Base64.atob base64) as [e|bytes]; [discriminate|].
  destruct (Int16Array_of_bytes bytes) as [e|vs]; [discriminate|].
  destruct vs as [|v vs]; [discriminate|].
  cbn [length createBuffer] in H. injection H as <-.
  unfold duration. cbn [channelData sampleRate length map].
  unfold Qlt, Qdiv, Qmult, Qinv, inject_Z. cbn [Qnum Qden]. cbn. lia.
Qed.

Lemma enqueue_ok base64 ctx currentTime s buffer :
  decodeAudioData base64 = inr buffer ->
  enqueue base64 ctx currentTime s =
  (enqueued s currentTime buffer,
   [CreateBufferSource ctx (nextHandle s);
    Connect (nextHandle s) (Destination ctx);
    SourceStart (nextHandle s) (Math_max (nextStartTimeRef s) currentTime)],
   inr tt).
Proof.
  intro H. unfold enqueue. unfold_m. rewrite H. destruct s. reflexivity.
Qed.

(** When the chunk does not decode, the handler has already set the status
    and moved the cursor. *)
Lemma enqueue_throw base64 ctx currentTime s e :
  decodeAudioData base64 = inl e ->
  enqueue base64 ctx currentTime s =
  (set_nextStartTimeRef (Math_max (nextStartTimeRef s) currentTime)
     (set_status speaking s), [], inl e).
Proof.
  intro H. unfold enqueue. unfold_m. rewrite H. destruct s. reflexivity.
Qed.

Lemma interrupt_spec s :
  interrupt s = (interrupted_state s, map SourceStop (sourcesRef s), inr tt).
Proof.
  unfold interrupt. unfold_m. rewrite forEach_calls. destruct s. cbn.
  now rewrite app_nil_r.
Qed.

Lemma onmessage_chunk base64 ctx currentTime s :
  audioContextRef s = Some ctx -> nonempty base64 = true ->
  onmessage (chunk base64) currentTime s =
  match enqueue base64 ctx currentTime s with
  | (s1, t1, inl e) => (s1, t1, inl e)
  | (s1, t1, inr _) => (s1, t1, inr tt)
  end.
Proof.
  intros Hctx Hne. unfold onmessage, chunk. cbn [base64Audio interrupted].
  unfold bind at 1 2. unfold get at 1. rewrite Hctx, Hne.
  destruct (enqueue base64 ctx currentTime s) as [[s1 t1] [e|[]]]; [reflexivity|].
  unfold ret. now rewrite !app_nil_r.
Qed.

Lemma step_chunk files base64 ctx currentTime s buffer :
  audioContextRef s = Some ctx -> nonempty base64 = true ->
  decodeAudioData base64 = inr buffer ->
  step files s (Message (chunk base64) currentTime) =
  (enqueued s currentTime buffer,
   [CreateBufferSource ctx (nextHandle s);
    Connect (nextHandle s) (Destination ctx);
    SourceStart (nextHandle s) (Math_max (nextStartTimeRef s) currentTime)]).
Proof.
  intros Hctx Hne Hdec. unfold step, handler.
  rewrite (onmessage_chunk _ ctx) by assumption.
  now rewrite (enqueue_ok _ _ _ _ buffer).
Qed.

Lemma step_interruption files currentTime s :
  step files s (Message interruption currentTime) =
  (interrupted_state s, map SourceStop (sourcesRef s)).
Proof.
  unfold step, handler, onmessage, interruption. cbn [base64Audio interrupted].
  unfold bind at 1 2. unfold get at 1, ret at 1. rewrite interrupt_spec.
  reflexivity.
Qed.

(** *** One lemma per event: the state and the calls of a step *)

Section Steps.

Variable files : list UploadedFile.

Lemma step_mount_ok s :
  step files s (Mount (inr tt)) =
  (started s,
   [NewAudioContext (nextHandle s) 24000;
    NewAudioContext (1 + nextHandle s)%nat 16000;
    GetUserMedia;
    LiveConnect (3 + nextHandle s)%nat (1 + nextHandle s)%nat (2 + nextHandle s)%nat]).
Proof. destruct s. reflexivity. Qed.

Lemma step_mount_failed s e :
  step files s (Mount (inl e)) =
  (start_failed s,
   [NewAudioContext (nextHandle s) 24000;
    NewAudioContext (1 + nextHandle s)%nat 16000;
    GetUserMedia;
    ConsoleError "Failed to start session"]).
Proof. destruct s. reflexivity. Qed.

Lemma microtasks_spec calls s : microtasks calls s = (s, calls, inr tt).
Proof.
  unfold microtasks. rewrite (forEach_emit Action (fun a => a)).
  now rewrite map_id.
Qed.

Lemma withSession_spec media s :
  withSession media s =
  (set_pendingSessions (queued media s) s, [], inr (deferred media s)).
Proof.
  destruct s as [a st em sp ac ic sr pr c so nh pd].
  unfold withSession, queued, deferred. unfold_m.
  cbn [sessionPromiseRef pendingSessions].
  destruct sp as [p|]; [destruct (reactions p pd) as [earlier|]|]; reflexivity.
Qed.

Lemma step_open inputCtx stream s :
  step files s (Open inputCtx stream) =
  (opened files s,
   [ConsoleLog "Live Session Opened";
    CreateMediaStreamSource inputCtx stream (nextHandle s);
    CreateScriptProcessor inputCtx (1 + nextHandle s)%nat 4096;
    Connect (nextHandle s) (Node (1 + nextHandle s)%nat);
    Connect (1 + nextHandle s)%nat (Destination inputCtx)]
     ++ deferred (contextMedia files) s).
Proof.
  unfold step, handler, onopen.
  unfold bind at 1 2 3 4. unfold emit at 1, modify at 1 2.
  cbn iota beta. rewrite withSession_spec.
  unfold bind, emit, modify, alloc. cbn iota beta.
  rewrite microtasks_spec.
  destruct s as [a st em sp ac ic sr pr c so nh pd]. reflexivity.
Qed.

Lemma step_fulfilled session s :
  step files s (Fulfilled session) =
  (fulfilled session s,
   match reactions session (pendingSessions s) with
   | Some media => map (SendRealtimeInput session) media
   | None => []
   end).
Proof.
  unfold step, handler, onfulfilled, fulfilled. unfold_m.
  destruct (reactions session (pendingSessions s)) as [media|]; [|reflexivity].
  rewrite forEach_calls. reflexivity.
Qed.

Lemma step_ended source s :
  step files s (Ended source) = (ended s source, []).
Proof.
  destruct s as [a st em sp ac ic sr pr c so nh pd].
  unfold step, handler, onended, ended. unfold_m. cbn -[set_delete].
  destruct (Nat.eqb (length (set_delete source so)) 0); reflexivity.
Qed.

Lemma step_unmount s : step files s Unmount = (cleaned s, cleanup_trace s).
Proof. unfold step, handler. now rewrite cleanup_spec. Qed.

Lemma step_close s :
  step files s Close =
  (cleaned s, ConsoleLog "Live Session Closed" :: cleanup_trace s).
Proof.
  unfold step, handler, onclose. unfold bind, emit. now rewrite cleanup_spec.
Qed.

Lemma step_error s :
  step files s Error =
  (cleaned (set_status error
              (set_errorMessage "Connection error. Please try again." s)),
   ConsoleError "Live Session Error" :: cleanup_trace s).
Proof.
  unfold step, handler, onerror. unfold bind, emit, modify.
  rewrite cleanup_spec. destruct s. reflexivity.
Qed.

Lemma step_retry mic s :
  step files s (Retry mic) =
  (fst (step files (cleaned s) (Mount mic)),
   cleanup_trace s ++ snd (step files (cleaned s) (Mount mic))).
Proof.
  unfold step, handler. unfold bind at 1. rewrite cleanup_spec.
  destruct (startSession mic (cleaned s)) as [[s2 t2] r]. reflexivity.
Qed.

Lemma step_audioprocess inputData s :
  step files s (AudioProcess inputData) =
  (set_pendingSessions (queued [createBlob inputData] s) s,
   deferred [createBlob inputData] s).
Proof.
  unfold step, handler, onaudioprocess. cbv zeta.
  unfold bind. rewrite withSession_spec. rewrite microtasks_spec.
  reflexivity.
Qed.

End Steps.

Lemma state_of_bind (A B : Type) (m : M A) (k : A -> M B) (s : State) :
  state_of (bind m k s) =
  match m s with
  | (s1, _, inl _) => s1
  | (s1, _, inr a) => state_of (k a s1)
  end.
Proof.
  unfold bind. destruct (m s) as [[s1 t1] [e|a]]; [reflexivity|].
  destruct (k a s1) as [[s2 t2] r]. reflexivity.
Qed.

Lemma onmessage_cursor msg currentTime s :
  (nextStartTimeRef s <= nextStartTimeRef (state_of (onmessage msg currentTime s)))%Q
  \/ (interrupted msg = true /\
      nextStartTimeRef (state_of (onmessage msg currentTime s)) = 0%Q).
Proof.
  destruct msg as [audio i]. cbn [interrupted].
  remember (state_of (onmessage {| base64Audio := audio; interrupted := i |}
                        currentTime s)) as s' eqn:E.
  unfold onmessage in E. cbn [base64Audio interrupted] in E.
  rewrite state_of_bind in E. unfold get at 1 in E. cbn iota beta in E.
  rewrite state_of_bind in E.
  assert (Hrest : forall s1 : State,
             (nextStartTimeRef s <= nextStartTimeRef s1)%Q ->
             s' = state_of ((if i then interrupt else ret tt) s1) ->
             (nextStartTimeRef s <= nextStartTimeRef s')%Q
             \/ (i = true /\ nextStartTimeRef s' = 0%Q)).
  { intros s1 H1 ->. destruct i.
    - right. rewrite interrupt_spec. destruct s1. split; reflexivity.
    - left. exact H1. }
  destruct audio as [base64|]; [destruct (audioContextRef s) as [ctx|];
                               [destruct (nonempty base64)|]|];
    try (apply (Hrest s); [apply Qle_refl | exact E]).
  destruct (decodeAudioData base64) as [e|buffer] eqn:D.
  - rewrite (enqueue_throw _ _ _ _ e D) in E. left. subst s'.
    destruct s. cbn. apply Math_max_le_l.
  - rewrite (enqueue_ok _ _ _ _ buffer D) in E.
    apply (Hrest (enqueued s currentTime buffer)); [|exact E].
    cbn [enqueued nextStartTimeRef].
    pose proof (decode_duration_pos _ _ D).
    pose proof (Math_max_le_l (nextStartTimeRef s) currentTime). lra.
Qed.

Lemma step_cursor files s ev :
  (nextStartTimeRef s <= nextStartTimeRef (fst (step files s ev)))%Q
  \/ (interrupting ev = true /\ nextStartTimeRef (fst (step files s ev)) = 0%Q).
Proof.
  destruct ev as [mic|inputCtx stream|msg currentTime|source|inputData| | |mic| |p].
  - left. destruct mic as [e|[]];
      [rewrite step_mount_failed | rewrite step_mount_ok]; apply Qle_refl.
  - left. rewrite step_open. apply Qle_refl.
  - destruct (onmessage_cursor msg currentTime s) as [H|H]; [left|right];
      unfold step, handler; unfold state_of in H;
      destruct (onmessage msg currentTime s) as [[s1 t1] r]; exact H.
  - left. rewrite step_ended. destruct s. apply Qle_refl.
  - left. rewrite step_audioprocess. apply Qle_refl.
  - left. rewrite step_close. apply Qle_refl.
  - left. rewrite step_error. destruct s. apply Qle_refl.
  - left. rewrite step_retry. destruct mic as [e|[]];
      [rewrite step_mount_failed | rewrite step_mount_ok]; apply Qle_refl.
  - left. rewrite step_unmount. apply Qle_refl.
  - left. rewrite step_fulfilled. unfold fulfilled.
    destruct (reactions p (pendingSessions s)); apply Qle_refl.
Qed.

(** *** Scheduling *)




(** C3.  An interruption, in a state with any number of active sources,
    stops each of them, empties the active set and sets the cursor to 0;
    the next chunk is then scheduled at the device time of its own
    arrival, whatever the cursor was before. *)
Theorem interruption_reanchors
    files s (now0 : Q) ctx base64 buffer (currentTime : Q) :
  audioContextRef s = Some ctx ->
  nonempty base64 = true ->
  decodeAudioData base64 = inr buffer ->
  (0 <= currentTime)%Q ->
  let r := step files s (Message interruption now0) in
  snd r = map SourceStop (sourcesRef s) /\
  sourcesRef (fst r) = [] /\
  nextStartTimeRef (fst r) = 0%Q /\
  startTimes (snd (step files (fst r) (Message (chunk base64) currentTime)))
    = [currentTime].
Proof.
  intros Hctx Hne Hdec Hnow r. subst r. rewrite step_interruption.
  cbn [fst snd]. split; [reflexivity|].
  split; [destruct s; reflexivity|]. split; [destruct s; reflexivity|].
  rewrite (step_chunk files base64 ctx currentTime _ buffer);
    [|destruct s; exact Hctx|assumption|assumption].
  cbn [snd startTimes]. f_equal.
  replace (nextStartTimeRef (interrupted_state s)) with 0%Q
    by (destruct s; reflexivity).
  now apply Math_max_r.
Qed.

Lemma interruption_reanchors_witness :
  let r := step [] speaking_state (Message interruption 6) in
  snd r = map SourceStop (sourcesRef speaking_state) /\
  sourcesRef (fst r) = [] /\
  nextStartTimeRef (fst r) = 0%Q /\
  startTimes (snd (step [] (fst r) (Message (chunk silence) 7))) = [7%Q].
Proof.
  apply (interruption_reanchors [] speaking_state 6 0%nat silence silence_buffer 7);
    try reflexivity.
  vm_compute; discriminate.
Defined.

(** C6.  The error callback, in any state, sets the status to [error] and
    runs [cleanup] once: every active source is stopped, the active set is
    empty, and the refs are cleared. *)
Theorem error_callback_tears_down files s :
  let r := step files s Error in
  status (fst r) = error /\
  stopped (snd r) = sourcesRef s /\
  sourcesRef (fst r) = [] /\
  cleanups (snd r) = 1%nat /\
  isActive (fst r) = false /\
  streamRef (fst r) = None /\
  inputContextRef (fst r) = None /\
  audioContextRef (fst r) = None /\
  sessionPromiseRef (fst r) = None.
Proof.
  cbv zeta. rewrite step_error. cbn [fst snd].
  repeat split; try reflexivity.
  - cbn [stopped]. apply stopped_cleanup_trace.
  - cbn [cleanups]. apply cleanups_cleanup_trace.
Qed.

(** C7.  [cleanup] returns normally, and a second [cleanup] right after it
    returns normally too, leaves the state as it is and makes no call on a
    device: its trace is the entry mark alone. *)
Theorem cleanup_idempotent s :
  exists s1 t1,
    cleanup s = (s1, t1, inr tt) /\
    cleanup s1 = (s1, [CallCleanup], inr tt).
Proof.
  exists (cleaned s), (cleanup_trace s). split; [apply cleanup_spec|].
  rewrite cleanup_spec. now rewrite cleaned_cleaned, cleanup_trace_cleaned.
Qed.

(** C8.  At every step of every run the cursor does not decrease, unless
    the step handles an interruption, which sets it to 0; and a message
    that carries the interruption flag does set it to 0, the zero offset
    from which the next buffer is anchored to the device time. *)
Theorem cursor_monotone_except_interruption files s0 evs ev (currentTime : Q) :
  let s := fst (run files s0 evs) in
  let s' := fst (step files s ev) in
  ((nextStartTimeRef s <= nextStartTimeRef s')%Q
   \/ (interrupting ev = true /\ nextStartTimeRef s' = 0%Q))
  /\ nextStartTimeRef (fst (step files s (Message interruption currentTime))) = 0%Q.
Proof.
  cbv zeta. split; [apply step_cursor|].
  rewrite step_interruption. cbn [fst].
  destruct (fst (run files s0 evs)). reflexivity.
Qed.

Lemma cleanups_deferred media s : cleanups (deferred media s) = O.
Proof.
  unfold deferred. destruct (sessionPromiseRef s) as [p|]; [|reflexivity].
  destruct (reactions p (pendingSessions s)); [reflexivity|].
  induction media as [|m media IH]; [reflexivity|]. exact IH.
Qed.

(** C5.  From [connecting], the open callback gives [listening]; a chunk
    gives [speaking]; a further chunk keeps [speaking]; the end of the first
    buffer keeps [speaking] and the end of the last one gives [listening];
    closing then runs [cleanup], which has run exactly once in the whole
    session and not at all before the close. *)
Theorem full_session_scenario files b1 b2 buf1 buf2 (now1 now2 : Q) :
  nonempty b1 = true -> nonempty b2 = true ->
  decodeAudioData b1 = inr buf1 -> decodeAudioData b2 = inr buf2 ->
  map status (states files initial (session_events b1 b2 now1 now2))
    = [connecting; connecting; listening; speaking; speaking; speaking;
       listening; listening] /\
  cleanups (snd (run files initial (removelast (session_events b1 b2 now1 now2))))
    = 0%nat /\
  cleanups (snd (run files initial (session_events b1 b2 now1 now2))) = 1%nat.
Proof.
  intros N1 N2 D1 D2.
  unfold session_events. cbn [removelast states run map].
  rewrite step_mount_ok. cbn [fst].
  rewrite step_open. cbn [fst].
  rewrite (step_chunk files b1 0%nat now1 _ buf1) by (assumption || reflexivity).
  cbn [fst].
  rewrite (step_chunk files b2 0%nat now2 _ buf2) by (assumption || reflexivity).
  cbn [fst].
  rewrite !step_ended. cbn [fst]. rewrite step_unmount.
  split; [reflexivity|].
  cbn [fst snd]. rewrite !cleanups_app. cbn [cleanups].
  rewrite ?cleanups_app, !cleanups_deferred, cleanups_cleanup_trace.
  split; reflexivity.
Qed.

Lemma full_session_scenario_witness :
  map status (states [] initial (session_events silence silence 1 1))
    = [connecting; connecting; listening; speaking; speaking; speaking;
       listening; listening] /\
  cleanups (snd (run [] initial (removelast (session_events silence silence 1 1))))
    = 0%nat /\
  cleanups (snd (run [] initial (session_events silence silence 1 1))) = 1%nat.
Proof.
  apply (full_session_scenario [] silence silence silence_buffer silence_buffer 1 1);
    reflexivity.
Defined.

(** *** Startup *)


Lemma run_app files s evs1 evs2 :
  run files s (evs1 ++ evs2) =
  (fst (run files (fst (run files s evs1)) evs2),
   snd (run files s evs1) ++ snd (run files (fst (run files s evs1)) evs2)).
Proof.
  revert s. induction evs1 as [|ev evs1 IH]; intro s.
  - cbn [app run fst snd]. now destruct (run files s evs2).
  - cbn [app run]. destruct (step files s ev) as [s1 t1]. rewrite IH.
    destruct (run files s1 evs1) as [s2 t2]. cbn [fst snd].
    destruct (run files s2 evs2) as [s3 t3]. cbn [fst snd].
    now rewrite app_assoc.
Qed.





End LiveFacts.

(** ** Image generation *)

Module GeminiFacts.
Import Gemini.

(** The loop passes over the parts that have no inline data. *)
Lemma firstImage_skips skipped ps :
  Forall (fun part => inlineData part = None) skipped ->
  firstImage (skipped ++ ps) = firstImage ps.
Proof.
  induction 1 as [|part skipped Hpart _ IH]; [reflexivity|].
  cbn [app firstImage]. now rewrite Hpart.
Qed.

(** What [generateLectureImage] returns, outcome by outcome of the remote
    call.  It never throws.  A rejected call gives the second placeholder;
    a response without candidates, content or parts, or whose parts have no
    inline data, gives the first placeholder; otherwise the first part that
    has inline data decides, and when that part holds the base64 text
    [bytes] the result is the data URL of [bytes]. *)
Lemma generateLectureImage_outcomes
    (generateContent : string -> exn + GenerateContentResponse) (prompt : string) :
  (exists url, generateLectureImage generateContent prompt = inr url) /\
  (forall e, generateContent prompt = inl e ->
     generateLectureImage generateContent prompt
       = inr "https://picsum.photos/800/450?text=Image+Unavailable"%string) /\
  (forall skipped bytes rest others,
     Forall (fun part => inlineData part = None) skipped ->
     generateContent prompt
       = inr (responseWith
                (skipped ++ mkPart (Some (mkInlineData (Some bytes))) :: rest)
                others) ->
     generateLectureImage generateContent prompt
       = inr ("data:image/png;base64," ++ bytes)%string) /\
  (forall ps others,
     Forall (fun part => inlineData part = None) ps ->
     generateContent prompt = inr (responseWith ps others) ->
     generateLectureImage generateContent prompt
       = inr "https://picsum.photos/800/450?text=Image+Generation+Failed"%string) /\
  (forall response,
     generateContent prompt = inr response ->
     candidates response = None \/ candidates response = Some [] \/
     (exists others, candidates response = Some (mkCandidate None :: others)) \/
     (exists others,
        candidates response = Some (mkCandidate (Some (mkContent None)) :: others)) ->
     generateLectureImage generateContent prompt
       = inr "https://picsum.photos/800/450?text=Image+Generation+Failed"%string).
Proof.
  unfold generateLectureImage, catching, responseWith.
  split; [|split; [|split; [|split]]].
  - destruct (generateContent prompt) as [e|response]; eexists; reflexivity.
  - intros e ->. reflexivity.
  - intros skipped bytes rest others Hs ->.
    unfold partsOf. cbn [candidates content parts].
    now rewrite firstImage_skips.
  - intros ps others Hs ->.
    unfold partsOf. cbn [candidates content parts].
    rewrite <- (app_nil_r ps). now rewrite firstImage_skips.
  - intros response -> H. unfold partsOf.
    destruct H as [-> | [-> | [[others ->] | [others ->]]]]; reflexivity.
Qed.

(** C10 (defect in the code).  When the first part that has inline data has
    no [data] in it, a shape the response type allows, [generateLectureImage]
    returns the text [data:image/png;base64,undefined]: it is not one of the
    two placeholders, and it carries no image bytes. *)
Theorem inline_part_without_data_gives_no_image
    (generateContent : string -> exn + GenerateContentResponse) (prompt : string)
    skipped rest others :
  Forall (fun part => inlineData part = None) skipped ->
  generateContent prompt
    = inr (responseWith (skipped ++ mkPart (Some (mkInlineData None)) :: rest)
             others) ->
  generateLectureImage generateContent prompt
    = inr "data:image/png;base64,undefined"%string /\
  "data:image/png;base64,undefined"%string <> imageGenerationFailed /\
  "data:image/png;base64,undefined"%string <> imageUnavailable.
Proof.
  intros Hs E. unfold generateLectureImage, catching, responseWith. rewrite E.
  unfold partsOf, responseWith. cbn [candidates content parts].
  rewrite firstImage_skips by exact Hs.
  repeat split; discriminate.
Qed.

Lemma inline_part_without_data_gives_no_image_witness :
  generateLectureImage
    (fun _ => inr (responseWith [mkPart None; mkPart (Some (mkInlineData None))] []))
    "a diagram of the water cycle"
    = inr "data:image/png;base64,undefined"%string /\
  "data:image/png;base64,undefined"%string <> imageGenerationFailed /\
  "data:image/png;base64,undefined"%string <> imageUnavailable.
Proof.
  apply (inline_part_without_data_gives_no_image
           (fun _ => inr (responseWith [mkPart None; mkPart (Some (mkInlineData None))] []))
           "a diagram of the water cycle" [mkPart None] [] []).
  - repeat constructor.
  - reflexivity.
Defined.

End GeminiFacts.

(** * Further properties *)

(** ** The PCM helpers *)

Module CodecProps.
Import Base64 Base64Facts Pcm PcmFacts.

Lemma bytes_of_sextets_range vs : Forall byte (bytes_of_sextets vs).
Proof.
  assert (G : forall n (l : list Z), (length l <= n)%nat -> Forall byte (bytes_of_sextets l)).
  { induction n as [|n IH]; intros l Hl.
    - destruct l; [constructor | cbn in Hl; lia].
    - destruct l as [|a [|b [|c [|d rest]]]]; cbn [bytes_of_sextets];
        repeat (constructor; [unfold byte; apply Z.mod_pos_bound; lia|]);
        try constructor.
      apply IH. cbn [length] in Hl. lia. }
  apply (G (length vs)). lia.
Qed.

Lemma atob_range base64 bytes : atob base64 = inr bytes -> Forall byte bytes.
Proof.
  unfold atob, atob_chars.
  destruct (Nat.eqb _ 1); [discriminate|].
  destruct (sextets_of_chars _) as [vs|]; [|discriminate].
  intro H. injection H as <-. apply bytes_of_sextets_range.
Qed.

Lemma int16_of_bytes_range lo hi : byte lo -> byte hi -> int16 (int16_of_bytes lo hi).
Proof.
  unfold byte, int16, int16_of_bytes. intros Hlo Hhi.
  destruct (Z.ltb_spec (lo + 256 * hi) 32768); lia.
Qed.

Lemma int16_elements_range bs : Forall byte bs -> Forall int16 (int16_elements bs).
Proof.
  induction bs as [|a|a b rest IH] using list_ind2; intro H.
  - constructor.
  - constructor.
  - inversion_clear H as [|? ? Ha H']. inversion_clear H' as [|? ? Hb Hrest].
    cbn [int16_elements]. constructor; [now apply int16_of_bytes_range | now apply IH].
Qed.

Lemma int16_elements_length bs :
  Nat.even (length bs) = true -> (length bs = 2 * length (int16_elements bs))%nat.
Proof.
  induction bs as [|a|a b rest IH] using list_ind2; intro H.
  - reflexivity.
  - discriminate.
  - cbn [length int16_elements] in *. rewrite IH by exact H. lia.
Qed.

(** What a successful [decodeAudioData] went through. *)
Lemma decode_inversion base64 buffer :
  decodeAudioData base64 = inr buffer ->
  exists bytes,
    atob base64 = inr bytes /\
    Nat.even (length bytes) = true /\
    int16_elements bytes <> [] /\
    buffer = {| channelData :=
                  map (fun v => (inject_Z v / 32768)%Q) (int16_elements bytes);
                sampleRate := 24000 |}.
Proof.
  unfold decodeAudioData, Int16Array_of_bytes. intro H.
  destruct (atob base64) as [e|bytes]; [discriminate|].
  exists bytes. destruct (Nat.even (length bytes)); [|discriminate].
  destruct (int16_elements bytes) as [|v vs]; [discriminate|].
  cbn [length createBuffer] in H. injection H as <-.
  repeat split. discriminate.
Qed.

Lemma unit_sample v :
  int16 v -> (-1 <= inject_Z v / 32768)%Q /\ (inject_Z v / 32768 < 1)%Q.
Proof.
  unfold int16. intro H.
  unfold Qle, Qlt, Qdiv, Qmult, Qinv, inject_Z. cbn [Qnum Qden]. cbn. lia.
Qed.

(** An int16 element divided by 32768 and scaled back is stored as itself. *)
Lemma ToInt16_unit_sample v :
  int16 v -> ToInt16 (inject_Z v / 32768 * 32768) = v.
Proof.
  intro H.
  assert (T : trunc (inject_Z v / 32768 * 32768) = v).
  { unfold trunc, Qdiv, Qmult, Qinv, inject_Z. cbn [Qnum Qden]. cbn.
    rewrite Z.mul_1_r. apply Z.quot_mul. lia. }
  rewrite ToInt16_small; rewrite T; [reflexivity | exact H].
Qed.

(** X1.  Every non-empty frame whose samples lie in [-1, 1) is decoded,
    after [createBlob], to a buffer of as many samples, each within
    1/32768 of the original. *)
Theorem roundtrip_within_one_step samples :
  samples <> [] ->
  Forall (fun x => (-1 <= x)%Q /\ (x < 1)%Q) samples ->
  exists buffer,
    decodeAudioData (data (createBlob samples)) = inr buffer /\
    length (channelData buffer) = length samples /\
    Forall2 (fun x y => (Qabs (y - x) <= 1 # 32768)%Q) samples (channelData buffer).
Proof.
  intros Hne Hr. eexists. split; [apply decode_createBlob, Hne|].
  cbn [channelData]. split; [apply length_map|]. clear Hne.
  induction Hr as [|x r [Hlo Hhi] _ IH]; [constructor|].
  cbn [map]. constructor; [now apply sample_roundtrip | exact IH].
Qed.

Lemma roundtrip_within_one_step_witness :
  exists buffer,
    decodeAudioData (data (createBlob [(1 # 3)%Q; (-1)%Q])) = inr buffer /\
    length (channelData buffer) = 2%nat /\
    Forall2 (fun x y => (Qabs (y - x) <= 1 # 32768)%Q)
      [(1 # 3)%Q; (-1)%Q] (channelData buffer).
Proof.
  apply (roundtrip_within_one_step [(1 # 3)%Q; (-1)%Q]).
  - discriminate.
  - repeat constructor; vm_compute; discriminate.
Defined.

(** X2.  A buffer returned by [decodeAudioData] is tagged 24000 Hz, has at
    least one frame, has one frame for every two bytes of the decoded text,
    and all its samples lie in [-1, 1). *)
Theorem decoded_buffer_shape base64 buffer :
  decodeAudioData base64 = inr buffer ->
  sampleRate buffer = 24000 /\
  channelData buffer <> [] /\
  (exists bytes, atob base64 = inr bytes /\
                 (length bytes = 2 * length (channelData buffer))%nat) /\
  Forall (fun y => (-1 <= y)%Q /\ (y < 1)%Q) (channelData buffer).
Proof.
  intro H. destruct (decode_inversion _ _ H) as [bytes [Ha [He [Hne ->]]]].
  cbn [sampleRate channelData]. split; [reflexivity|]. split.
  - destruct (int16_elements bytes); [contradiction | discriminate].
  - split.
    + exists bytes. split; [exact Ha|]. rewrite length_map.
      now apply int16_elements_length.
    + apply Forall_map.
      eapply Forall_impl; [|apply int16_elements_range, (atob_range _ _ Ha)].
      intros v Hv. now apply unit_sample.
Qed.

Lemma decoded_buffer_shape_witness :
  sampleRate (mkAudioBuffer [(inject_Z (-32768) / 32768)%Q] 24000) = 24000 /\
  channelData (mkAudioBuffer [(inject_Z (-32768) / 32768)%Q] 24000) <> [] /\
  (exists bytes, atob "AIA=" = inr bytes /\
     (length bytes =
      2 * length (channelData (mkAudioBuffer [(inject_Z (-32768) / 32768)%Q] 24000)))%nat) /\
  Forall (fun y => (-1 <= y)%Q /\ (y < 1)%Q)
    (channelData (mkAudioBuffer [(inject_Z (-32768) / 32768)%Q] 24000)).
Proof.
  apply (decoded_buffer_shape "AIA=" (mkAudioBuffer [(inject_Z (-32768) / 32768)%Q] 24000)).
  reflexivity.
Defined.

(** X3.  Encoding a decoded buffer and decoding it again gives the same
    buffer: on its own output the codec loses nothing, the sample -1.0
    included. *)
Theorem reencoding_is_lossless base64 buffer :
  decodeAudioData base64 = inr buffer ->
  decodeAudioData (data (createBlob (channelData buffer))) = inr buffer.
Proof.
  intro H. destruct (decode_inversion _ _ H) as [bytes [Ha [He [Hne ->]]]].
  cbn [channelData].
  rewrite decode_createBlob.
  - f_equal. f_equal. rewrite map_map.
    pose proof (int16_elements_range _ (atob_range _ _ Ha)) as Hr.
    clear H Ha He Hne.
    induction Hr as [|v vs Hv _ IH]; [reflexivity|].
    cbn [map]. rewrite ToInt16_unit_sample by exact Hv. f_equal. exact IH.
  - destruct (int16_elements bytes); [contradiction | discriminate].
Qed.

Lemma reencoding_is_lossless_witness :
  decodeAudioData
    (data (createBlob (channelData (mkAudioBuffer [(inject_Z (-32768) / 32768)%Q] 24000))))
  = inr (mkAudioBuffer [(inject_Z (-32768) / 32768)%Q] 24000).
Proof.
  apply (reencoding_is_lossless "AIA="). reflexivity.
Defined.

(** X4.  For every frame, [createBlob] yields the PCM mime type and a text
    that [atob] accepts and turns into exactly two bytes per sample. *)
Theorem createBlob_payload samples :
  mimeType (createBlob samples) = "audio/pcm;rate=16000"%string /\
  exists bytes,
    atob (data (createBlob samples)) = inr bytes /\
    (length bytes = 2 * length samples)%nat /\
    Forall byte bytes.
Proof.
  split; [reflexivity|].
  exists (flat_map bytes_of_int16 (map (fun x => ToInt16 (x * 32768)%Q) samples)).
  split; [unfold createBlob; cbn [data]; apply atob_btoa, bytes_range|].
  split; [|apply bytes_range].
  induction samples as [|x r IH]; [reflexivity|].
  cbn [map flat_map bytes_of_int16 app length]. rewrite IH. lia.
Qed.

(** X5.  A text that decodes to no byte at all (the empty text, white
    space) is rejected with [NotSupportedError], since a buffer needs at
    least one frame; so the encoding of an empty frame does not decode. *)
Theorem empty_payload_rejected base64 :
  atob base64 = inr [] ->
  decodeAudioData base64 = inl NotSupportedError /\
  decodeAudioData (data (createBlob [])) = inl NotSupportedError.
Proof.
  intro H. split; [|reflexivity].
  unfold decodeAudioData. now rewrite H.
Qed.

Lemma empty_payload_rejected_witness :
  decodeAudioData " " = inl NotSupportedError /\
  decodeAudioData (data (createBlob [])) = inl NotSupportedError.
Proof. apply (empty_payload_rejected " "). reflexivity. Defined.

End CodecProps.

(** ** The playback scheduler and the session callbacks *)

Module SchedulerProps.
Import Pcm PcmFacts Live LiveFacts Playback.
Local Open Scope live_scope.

Lemma startTimes_app t u : startTimes (t ++ u) = startTimes t ++ startTimes u.
Proof.
  induction t as [|a t IH]; [reflexivity|].
  destruct a; cbn [app startTimes]; now rewrite IH.
Qed.

Lemma startTimes_SourceStop l : startTimes (map SourceStop l) = [].
Proof. induction l as [|x l IH]; [reflexivity | exact IH]. Qed.

Lemma sent_app t u : sent (t ++ u) = sent t ++ sent u.
Proof.
  induction t as [|a t IH]; [reflexivity|].
  destruct a; cbn [app sent]; now rewrite IH.
Qed.

Lemma sent_SourceStop l : sent (map SourceStop l) = [].
Proof. induction l as [|x l IH]; [reflexivity | exact IH]. Qed.

Lemma startTimes_cleanup_trace s : startTimes (cleanup_trace s) = [].
Proof.
  unfold cleanup_trace.
  destruct (inputContextRef s), (processorRef s), (streamRef s), (audioContextRef s);
    cbn [opt_action app startTimes]; rewrite ?startTimes_app, startTimes_SourceStop;
    reflexivity.
Qed.

Lemma sent_cleanup_trace s : sent (cleanup_trace s) = [].
Proof.
  unfold cleanup_trace.
  destruct (inputContextRef s), (processorRef s), (streamRef s), (audioContextRef s);
    cbn [opt_action app sent]; rewrite ?sent_app, sent_SourceStop;
    reflexivity.
Qed.

(** Every case of the message handler: the audio branch is skipped, or it
    throws, or it schedules one buffer; the interruption branch runs unless
    the audio branch threw. *)
Lemma step_message files msg currentTime s :
  step files s (Message msg currentTime) =
  let rest := fun (s1 : State) (t : list Action) =>
                if interrupted msg
                then (interrupted_state s1, t ++ map SourceStop (sourcesRef s1))
                else (s1, t) in
  match base64Audio msg, audioContextRef s with
  | Some audio, Some ctx =>
      if nonempty audio then
        match decodeAudioData audio with
        | inl _ =>
            (set_nextStartTimeRef (Math_max (nextStartTimeRef s) currentTime)
               (set_status speaking s), [])
        | inr buffer =>
            rest (enqueued s currentTime buffer)
              [CreateBufferSource ctx (nextHandle s);
               Connect (nextHandle s) (Destination ctx);
               SourceStart (nextHandle s) (Math_max (nextStartTimeRef s) currentTime)]
        end
      else rest s []
  | _, _ => rest s []
  end.
Proof.
  cbv zeta. destruct msg as [audio i]. unfold step, handler, onmessage.
  cbn [base64Audio interrupted]. unfold bind at 1 2. unfold get at 1.
  destruct audio as [audio|]; [destruct (audioContextRef s) as [ctx|];
                              [destruct (nonempty audio)|]|];
    try (unfold ret at 1; destruct i; [rewrite interrupt_spec | unfold ret];
         reflexivity).
  destruct (decodeAudioData audio) as [e|buffer] eqn:D.
  - now rewrite (enqueue_throw _ _ _ _ e D).
  - rewrite (enqueue_ok _ _ _ _ buffer D).
    destruct i; [rewrite interrupt_spec | unfold ret]; reflexivity.
Qed.

Lemma message_start_bounds files s msg (currentTime : Q) :
  Forall (fun t => (currentTime <= t)%Q /\ (nextStartTimeRef s <= t)%Q)
    (startTimes (snd (step files s (Message msg currentTime)))).
Proof.
  rewrite step_message. cbv zeta.
  assert (Hnone : forall s1,
             Forall (fun t => (currentTime <= t)%Q /\ (nextStartTimeRef s <= t)%Q)
               (startTimes (snd (if interrupted msg
                                 then (interrupted_state s1,
                                       [] ++ map SourceStop (sourcesRef s1))
                                 else (s1, []))))).
  { intro s1. destruct (interrupted msg); cbn [snd app];
      rewrite ?startTimes_SourceStop; constructor. }
  destruct (base64Audio msg) as [audio|]; [|apply Hnone].
  destruct (audioContextRef s) as [ctx|]; [|apply Hnone].
  destruct (nonempty audio); [|apply Hnone].
  destruct (decodeAudioData audio) as [e|buffer]; [constructor|].
  destruct (interrupted msg); cbn [snd app startTimes];
    rewrite ?startTimes_SourceStop;
    (constructor; [split; [apply Math_max_le_r | apply Math_max_le_l] | constructor]).
Qed.

(** X6.  Whatever the message and the state, a buffer is never scheduled
    before the device time at which the message is handled, nor before the
    cursor. *)
Theorem never_scheduled_in_the_past files s msg (currentTime : Q) :
  (length (startTimes (snd (step files s (Message msg currentTime)))) <= 1)%nat /\
  Forall (fun t => (currentTime <= t)%Q /\ (nextStartTimeRef s <= t)%Q)
    (startTimes (snd (step files s (Message msg currentTime)))).
Proof.
  split; [|apply message_start_bounds].
  rewrite step_message. cbv zeta.
  destruct (base64Audio msg) as [audio|], (audioContextRef s) as [ctx|];
    try destruct (nonempty audio); try destruct (decodeAudioData audio);
    destruct (interrupted msg); cbn [snd app startTimes length];
    rewrite ?startTimes_SourceStop; cbn [length]; lia.
Qed.

Lemma run_cons files s ev evs :
  run files s (ev :: evs) =
  (fst (run files (fst (step files s ev)) evs),
   snd (step files s ev) ++ snd (run files (fst (step files s ev)) evs)).
Proof.
  cbn [run]. destruct (step files s ev) as [s1 t1]. cbn [fst snd].
  destruct (run files s1 evs) as [s2 t2]. reflexivity.
Qed.

Lemma run_cursor_mono files evs s :
  forallb (fun ev => negb (interrupting ev)) evs = true ->
  (nextStartTimeRef s <= nextStartTimeRef (fst (run files s evs)))%Q.
Proof.
  revert s. induction evs as [|ev evs IH]; intros s H.
  - apply Qle_refl.
  - cbn [forallb] in H. apply andb_true_iff in H. destruct H as [Hev Hevs].
    rewrite run_cons. cbn [fst].
    apply Qle_trans with (nextStartTimeRef (fst (step files s ev))).
    + destruct (step_cursor files s ev) as [L|[I _]]; [exact L|].
      rewrite I in Hev. discriminate.
    + now apply IH.
Qed.

(** X7.  Buffers never overlap: once a buffer is scheduled at [t1], then
    after any events without an interruption, whatever is scheduled next
    starts no earlier than [t1] plus the duration of that buffer. *)
Theorem buffers_never_overlap
    files s ctx audio buffer (now1 : Q) evs msg (now2 t2 : Q) :
  audioContextRef s = Some ctx ->
  nonempty audio = true ->
  decodeAudioData audio = inr buffer ->
  forallb (fun ev => negb (interrupting ev)) evs = true ->
  let r1 := step files s (Message (chunk audio) now1) in
  let s2 := fst (run files (fst r1) evs) in
  In t2 (startTimes (snd (step files s2 (Message msg now2)))) ->
  exists t1,
    startTimes (snd r1) = [t1] /\ (t1 + duration buffer <= t2)%Q.
Proof.
  intros Hctx Hne Hdec Hevs r1 s2 Hin. subst r1 s2.
  rewrite (step_chunk files audio ctx now1 s buffer) in * by assumption.
  cbn [fst snd startTimes] in *.
  eexists. split; [reflexivity|].
  pose proof (message_start_bounds files
                (fst (run files (enqueued s now1 buffer) evs)) msg now2) as F.
  rewrite Forall_forall in F. destruct (F t2 Hin) as [_ Hc].
  eapply Qle_trans; [|exact Hc].
  apply (run_cursor_mono files evs (enqueued s now1 buffer) Hevs).
Qed.

Lemma buffers_never_overlap_witness :
  exists t1,
    startTimes (snd (step [] listening_state (Message (chunk silence) 0))) = [t1] /\
    (t1 + duration silence_buffer <= 0 + duration silence_buffer + duration silence_buffer)%Q.
Proof.
  apply (buffers_never_overlap [] listening_state 0%nat silence silence_buffer 0
           [Message (chunk silence) 0] (chunk silence) 0
           (0 + duration silence_buffer + duration silence_buffer)%Q).
  - reflexivity.
  - reflexivity.
  - reflexivity.
  - reflexivity.
  - vm_compute. left. reflexivity.
Defined.

Lemma gapless_tail files ctx arrivals :
  forall buffers s (e : Q),
    audioContextRef s = Some ctx ->
    (nextStartTimeRef s == e)%Q ->
    Forall2 decodes arrivals buffers ->
    Forall2 (fun a t => (snd a <= t)%Q) arrivals
      (back_to_back e (map duration buffers)) ->
    Forall2 Qeq (startTimes (snd (run files s (chunk_events arrivals))))
      (back_to_back e (map duration buffers)).
Proof.
  induction arrivals as [|[audio now] arrivals IH]; intros buffers s e Hctx Hc Hd Hp.
  - inversion Hd; subst. constructor.
  - inversion Hd as [|? buffer ? buffers' [Hne Hdec] Hd']; subst.
    cbn [map back_to_back] in *.
    inversion Hp as [|? ? ? ? Hnow Hp']; subst. cbn [fst snd] in *.
    unfold chunk_events. cbn [map fst snd]. rewrite run_cons.
    rewrite (step_chunk files audio ctx now s buffer) by assumption.
    cbn [fst snd app startTimes].
    assert (E : (Math_max (nextStartTimeRef s) now == e)%Q).
    { rewrite Math_max_l; [exact Hc | rewrite Hc; exact Hnow]. }
    constructor; [exact E|].
    apply IH; [exact Hctx | | exact Hd' | exact Hp'].
    cbn [enqueued nextStartTimeRef]. now rewrite E.
Qed.

(** X8.  Any number of chunks enqueued on an idle scheduler play back to
    back from the device time [t0] of the first one, each starting where
    the one before ends, as long as every chunk arrives no later than the
    start time so computed for it. *)
Theorem gapless_sequence files s ctx audio (t0 : Q) arrivals buffers :
  audioContextRef s = Some ctx ->
  idle s t0 ->
  Forall2 decodes ((audio, t0) :: arrivals) buffers ->
  Forall2 (fun a t => (snd a <= t)%Q) ((audio, t0) :: arrivals)
    (back_to_back t0 (map duration buffers)) ->
  Forall2 Qeq
    (startTimes (snd (run files s (chunk_events ((audio, t0) :: arrivals)))))
    (back_to_back t0 (map duration buffers)).
Proof.
  intros Hctx [_ Hidle] Hd Hp.
  inversion Hd as [|? buffer ? buffers' [Hne Hdec] Hd']; subst.
  cbn [map back_to_back] in *.
  inversion Hp as [|? ? ? ? _ Hp']; subst. cbn [fst snd] in *.
  unfold chunk_events. cbn [map fst snd]. rewrite run_cons.
  rewrite (step_chunk files audio ctx t0 s buffer) by assumption.
  cbn [fst snd app startTimes].
  rewrite (Math_max_r _ _ Hidle).
  constructor; [reflexivity|].
  apply (gapless_tail files ctx); [exact Hctx | | exact Hd' | exact Hp'].
  cbn [enqueued nextStartTimeRef]. now rewrite (Math_max_r _ _ Hidle).
Qed.

Lemma gapless_sequence_witness :
  Forall2 Qeq
    (startTimes (snd (run [] listening_state
                        (chunk_events [(silence, 0%Q); (silence, 0%Q);
                                       (silence, 0%Q); (silence, 0%Q)]))))
    (back_to_back 0 (map duration [silence_buffer; silence_buffer;
                                   silence_buffer; silence_buffer])).
Proof.
  apply (gapless_sequence [] listening_state 0%nat silence 0%Q
           [(silence, 0%Q); (silence, 0%Q); (silence, 0%Q)]
           [silence_buffer; silence_buffer; silence_buffer; silence_buffer]).
  - reflexivity.
  - split; [reflexivity | vm_compute; discriminate].
  - repeat (apply Forall2_cons; [split; reflexivity|]). apply Forall2_nil.
  - repeat (apply Forall2_cons; [vm_compute; discriminate|]). apply Forall2_nil.
Defined.

(** X9.  A chunk that does not decode leaves the status at [speaking] and
    the cursor at [max(cursor, now)], schedules nothing, and ends the
    handler before the interruption branch: even with the interruption flag
    set, no source is stopped and the active set stays as it was. *)
Theorem undecodable_chunk_sticks files s ctx audio e flag (currentTime : Q) :
  audioContextRef s = Some ctx ->
  nonempty audio = true ->
  decodeAudioData audio = inl e ->
  let r := step files s
             (Message {| base64Audio := Some audio; interrupted := flag |} currentTime) in
  status (fst r) = speaking /\
  snd r = [] /\
  sourcesRef (fst r) = sourcesRef s /\
  nextStartTimeRef (fst r) = Math_max (nextStartTimeRef s) currentTime.
Proof.
  intros Hctx Hne Hdec r. subst r. rewrite step_message. cbv zeta.
  cbn [base64Audio interrupted]. rewrite Hctx, Hne, Hdec.
  destruct s. repeat split.
Qed.

Lemma undecodable_chunk_sticks_witness :
  let r := step [] speaking_state
             (Message {| base64Audio := Some "QQ=="%string; interrupted := true |} 9) in
  status (fst r) = speaking /\
  snd r = [] /\
  sourcesRef (fst r) = sourcesRef speaking_state /\
  nextStartTimeRef (fst r) = Math_max (nextStartTimeRef speaking_state) 9.
Proof.
  apply (undecodable_chunk_sticks [] speaking_state 0%nat "QQ==" RangeError true 9);
    reflexivity.
Defined.

Lemma quiet_step files s ev :
  starts_nothing ev = true ->
  audioContextRef s = None -> sessionPromiseRef s = None ->
  startTimes (snd (step files s ev)) = [] /\
  sent (snd (step files s ev)) = [] /\
  audioContextRef (fst (step files s ev)) = None /\
  sessionPromiseRef (fst (step files s ev)) = None.
Proof.
  intros Hq Ha Hs.
  destruct ev as [mic|inputCtx stream|msg currentTime|source|inputData| | |mic| |p];
    try discriminate.
  - rewrite step_message. cbv zeta. rewrite Ha.
    assert (G : forall t, t = [] ->
              startTimes (snd (if interrupted msg
                               then (interrupted_state s, t ++ map SourceStop (sourcesRef s))
                               else (s, t))) = [] /\
              sent (snd (if interrupted msg
                         then (interrupted_state s, t ++ map SourceStop (sourcesRef s))
                         else (s, t))) = [] /\
              audioContextRef (fst (if interrupted msg
                                    then (interrupted_state s, t ++ map SourceStop (sourcesRef s))
                                    else (s, t))) = None /\
              sessionPromiseRef (fst (if interrupted msg
                                      then (interrupted_state s, t ++ map SourceStop (sourcesRef s))
                                      else (s, t))) = None).
    { intros t ->. destruct (interrupted msg); cbn [fst snd app];
        rewrite ?startTimes_SourceStop, ?sent_SourceStop;
        destruct s; cbn in *; auto. }
    destruct (base64Audio msg); apply G; reflexivity.
  - rewrite step_ended. destruct s. cbn in *. auto.
  - rewrite step_audioprocess. unfold deferred, queued. rewrite Hs.
    destruct s. cbn in *. auto.
  - rewrite step_close. cbn [fst snd startTimes sent].
    rewrite startTimes_cleanup_trace, sent_cleanup_trace. auto.
  - rewrite step_error. cbn [fst snd startTimes sent].
    rewrite startTimes_cleanup_trace, sent_cleanup_trace. auto.
  - rewrite step_unmount. cbn [fst snd].
    rewrite startTimes_cleanup_trace, sent_cleanup_trace. auto.
Qed.

(** X10.  After [cleanup], and until the session is started again, nothing
    is played and nothing is sent: whatever messages, ended events,
    microphone frames, close and error callbacks follow, no buffer is
    scheduled and no media goes to the session. *)
Theorem nothing_after_teardown files s evs :
  forallb starts_nothing evs = true ->
  let r := run files (cleaned s) evs in
  startTimes (snd r) = [] /\ sent (snd r) = [].
Proof.
  intros Hq r. subst r.
  assert (G : forall evs s0,
             forallb starts_nothing evs = true ->
             audioContextRef s0 = None -> sessionPromiseRef s0 = None ->
             startTimes (snd (run files s0 evs)) = [] /\
             sent (snd (run files s0 evs)) = []).
  { clear. induction evs as [|ev evs IH]; intros s0 Hq Ha Hs.
    - split; reflexivity.
    - cbn [forallb] in Hq. apply andb_true_iff in Hq. destruct Hq as [Hev Hevs].
      destruct (quiet_step files s0 ev Hev Ha Hs) as [T [S' [A' P']]].
      destruct (IH _ Hevs A' P') as [T2 S2].
      rewrite run_cons. cbn [snd].
      now rewrite startTimes_app, sent_app, T, S', T2, S2. }
  apply G; [exact Hq | reflexivity | reflexivity].
Qed.

Lemma nothing_after_teardown_witness :
  let r := run [] (cleaned speaking_state)
             [Message (chunk silence) 9; AudioProcess [(1 # 2)%Q]; Ended 6%nat;
              Message interruption 9; Close] in
  startTimes (snd r) = [] /\ sent (snd r) = [].
Proof.
  apply (nothing_after_teardown [] speaking_state
           [Message (chunk silence) 9; AudioProcess [(1 # 2)%Q]; Ended 6%nat;
            Message interruption 9; Close]).
  reflexivity.
Defined.

Lemma startTimes_deferred media s : startTimes (deferred media s) = [].
Proof.
  unfold deferred. destruct (sessionPromiseRef s) as [p|]; [|reflexivity].
  destruct (reactions p (pendingSessions s)); [reflexivity|].
  induction media as [|m media IH]; [reflexivity | exact IH].
Qed.

(** X11.  Teardown and retry keep the schedule cursor.  After an error, a
    retry and the open callback, the first chunk of the new session starts
    at [max(cursor before the error, now)]: when the old cursor is ahead of
    the new device time the buffer waits for it. *)
Theorem retry_keeps_cursor files s audio buffer (currentTime : Q) :
  nonempty audio = true ->
  decodeAudioData audio = inr buffer ->
  let n := nextHandle s in
  startTimes
    (snd (run files s
            [Error; Retry (inr tt); Open (1 + n)%nat (2 + n)%nat;
             Message (chunk audio) currentTime]))
  = [Math_max (nextStartTimeRef s) currentTime].
Proof.
  intros Hne Hdec n. subst n.
  rewrite !run_cons. cbn [run fst snd].
  rewrite step_error. cbn [fst snd].
  rewrite step_retry, step_mount_ok. cbn [fst snd].
  rewrite step_open. cbn [fst snd].
  rewrite (step_chunk files audio (nextHandle s) currentTime _ buffer);
    [|destruct s; reflexivity|assumption|assumption].
  cbn [fst snd].
  rewrite !startTimes_app. cbn [startTimes].
  rewrite ?startTimes_app, !startTimes_cleanup_trace, startTimes_deferred.
  cbn [startTimes app]. destruct s. reflexivity.
Qed.

Lemma retry_keeps_cursor_witness :
  startTimes
    (snd (run [] speaking_state
            [Error; Retry (inr tt);
             Open (1 + nextHandle speaking_state)%nat (2 + nextHandle speaking_state)%nat;
             Message (chunk silence) 0]))
  = [Math_max (nextStartTimeRef speaking_state) 0].
Proof.
  apply (retry_keeps_cursor [] speaking_state silence silence_buffer 0); reflexivity.
Defined.

(** X12.  When the microphone request fails, [startSession] reports the
    error without running [cleanup]: the two audio contexts it has just
    created stay referenced, and it is the next [cleanup] (unmount or
    retry) that closes both. *)
Theorem failed_start_keeps_contexts files s e :
  let n := nextHandle s in
  let r1 := step files s (Mount (inl e)) in
  let r2 := step files (fst r1) Unmount in
  status (fst r1) = error /\
  cleanups (snd r1) = 0%nat /\
  audioContextRef (fst r1) = Some n /\
  inputContextRef (fst r1) = Some (1 + n)%nat /\
  In (CloseContext n) (snd r2) /\
  In (CloseContext (1 + n)%nat) (snd r2) /\
  audioContextRef (fst r2) = None /\
  inputContextRef (fst r2) = None.
Proof.
  cbv zeta. rewrite step_mount_failed. cbn [fst snd].
  rewrite step_unmount. cbn [fst snd].
  repeat split; try reflexivity.
  - unfold cleanup_trace. cbn [start_failed audioContextRef inputContextRef].
    right. rewrite !in_app_iff. right. right. right. right. left. reflexivity.
  - unfold cleanup_trace. cbn [start_failed audioContextRef inputContextRef].
    right. rewrite !in_app_iff. right. right. left. left. reflexivity.
Qed.

(** X13.  A message that carries both a chunk and the interruption flag
    plays nothing: the buffer is scheduled and stopped in the same step,
    together with every source that was active, and the state is that of
    an interruption. *)
Theorem chunk_with_interruption_is_stopped
    files s ctx audio buffer (currentTime : Q) :
  audioContextRef s = Some ctx ->
  nonempty audio = true ->
  decodeAudioData audio = inr buffer ->
  let r := step files s
             (Message {| base64Audio := Some audio; interrupted := true |} currentTime) in
  startTimes (snd r) = [Math_max (nextStartTimeRef s) currentTime] /\
  stopped (snd r) = set_add (nextHandle s) (sourcesRef s) /\
  In (nextHandle s) (stopped (snd r)) /\
  sourcesRef (fst r) = [] /\
  status (fst r) = listening /\
  nextStartTimeRef (fst r) = 0%Q.
Proof.
  intros Hctx Hne Hdec r. subst r. rewrite step_message. cbv zeta.
  cbn [base64Audio interrupted]. rewrite Hctx, Hne, Hdec. cbn [fst snd].
  rewrite startTimes_app, stopped_app, startTimes_SourceStop, stopped_SourceStop.
  cbn [startTimes stopped app enqueued sourcesRef].
  repeat split.
  unfold set_add. destruct (existsb (Nat.eqb (nextHandle s)) (sourcesRef s)) eqn:E.
  - apply existsb_exists in E. destruct E as [x [Hx Heq]].
    apply Nat.eqb_eq in Heq. now subst.
  - apply in_or_app. right. now left.
Qed.

Lemma chunk_with_interruption_is_stopped_witness :
  let r := step [] speaking_state
             (Message {| base64Audio := Some silence; interrupted := true |} 9) in
  startTimes (snd r) = [Math_max (nextStartTimeRef speaking_state) 9] /\
  stopped (snd r) = set_add (nextHandle speaking_state) (sourcesRef speaking_state) /\
  In (nextHandle speaking_state) (stopped (snd r)) /\
  sourcesRef (fst r) = [] /\
  status (fst r) = listening /\
  nextStartTimeRef (fst r) = 0%Q.
Proof.
  apply (chunk_with_interruption_is_stopped [] speaking_state 0%nat silence
           silence_buffer 9); reflexivity.
Defined.

(** X14.  The ['ended'] listener does not look at the status.  Whenever an
    ended event is handled after the error callback, the active set is
    empty and the status goes from [error] to [listening], the error
    message staying in place. *)
Theorem ended_after_error_sets_listening files s source :
  let s1 := fst (step files s Error) in
  let s2 := fst (step files s1 (Ended source)) in
  status s1 = error /\
  status s2 = listening /\
  errorMessage s2 = "Connection error. Please try again."%string.
Proof.
  cbv zeta. rewrite step_error. cbn [fst]. rewrite step_ended.
  destruct s. repeat split.
Qed.

End SchedulerProps.

(** ** The remaining services *)

Module ServiceProps.
Import Base64 Base64Facts Live Service.

Lemma onEndedCalls_app t u : (onEndedCalls (t ++ u) = onEndedCalls t + onEndedCalls u)%nat.
Proof.
  induction t as [|c t IH]; [reflexivity|].
  destruct c; cbn [app onEndedCalls]; rewrite IH; reflexivity.
Qed.

(** X15.  [playTTS] either starts playback or calls [onEnded], never both
    and never neither.  Playback starts exactly when the call resolves
    with a non-empty base64 text that [atob] accepts and the browser
    decodes; [onEnded] is then left to the source and the function
    returned stops that source.  In every other case [onEnded] is called
    once, at once, and the function returned does nothing. *)
Theorem playTTS_ends_or_plays text outcome decoder ctx source :
  let calls := fst (playTTS text outcome decoder ctx source) in
  let stopFn := snd (playTTS text outcome decoder ctx source) in
  ((exists audio bytes,
       outcome = inr (Some audio) /\ nonempty audio = true /\
       atob audio = inr bytes /\ decoder bytes = inr tt) ->
   started_playback calls = true /\ onEndedCalls calls = 0%nat /\
   In (TtsSetOnEnded source) calls /\ stopFn = StopPlayback source ctx) /\
  (~ (exists audio bytes,
        outcome = inr (Some audio) /\ nonempty audio = true /\
        atob audio = inr bytes /\ decoder bytes = inr tt) ->
   started_playback calls = false /\ onEndedCalls calls = 1%nat /\
   stopFn = StopNothing).
Proof.
  cbv zeta. unfold playTTS. split.
  - intros [audio [bytes [-> [Hne [Ha Hd]]]]].
    cbn [noText textOf]. rewrite Hne, Ha, Hd. cbn [negb fst snd].
    repeat split. cbn. tauto.
  - intro Hnot.
    destruct outcome as [e|[audio|]]; cbn [noText textOf];
      try (repeat split; reflexivity).
    destruct (nonempty audio) eqn:Hne; cbn [negb];
      [|repeat split; reflexivity].
    destruct (atob audio) as [e|bytes] eqn:Ha; [repeat split; reflexivity|].
    destruct (decoder bytes) as [e|[]] eqn:Hd; [repeat split; reflexivity|].
    exfalso. apply Hnot. exists audio, bytes. repeat split; assumption.
Qed.

Lemma playTTS_ends_or_plays_witness :
  started_playback (fst (playTTS "hello" (inr (Some "AAAA"%string)) (fun _ => inr tt) 0%nat 1%nat)) = true /\
  onEndedCalls (fst (playTTS "hello" (inr (Some "AAAA"%string)) (fun _ => inr tt) 0%nat 1%nat)) = 0%nat /\
  In (TtsSetOnEnded 1%nat)
     (fst (playTTS "hello" (inr (Some "AAAA"%string)) (fun _ => inr tt) 0%nat 1%nat)) /\
  snd (playTTS "hello" (inr (Some "AAAA"%string)) (fun _ => inr tt) 0%nat 1%nat)
    = StopPlayback 1%nat 0%nat.
Proof.
  apply (proj1 (playTTS_ends_or_plays "hello" (inr (Some "AAAA"%string))
                  (fun _ => inr tt) 0%nat 1%nat)).
  exists "AAAA"%string, [0; 0; 0]. repeat split; reflexivity.
Defined.

(** *** Data URLs *)

Lemma append_cons c (a b : string) : (String c a ++ b = String c (a ++ b))%string.
Proof. reflexivity. Qed.

Lemma append_assoc (a b c : string) : ((a ++ b) ++ c = a ++ (b ++ c))%string.
Proof.
  induction a as [|x a IH]; [reflexivity|].
  now rewrite !append_cons, IH.
Qed.

Lemma no_comma_append a b : no_comma (a ++ b) = (no_comma a && no_comma b)%bool.
Proof.
  induction a as [|x a IH]; [reflexivity|].
  rewrite append_cons. cbn [no_comma]. rewrite IH. now rewrite andb_assoc.
Qed.

Lemma split_on_no_comma s : no_comma s = true -> split_on ","%char s = [s].
Proof.
  induction s as [|c s IH]; [reflexivity|].
  cbn [no_comma split_on]. intro H. apply andb_true_iff in H. destruct H as [Hc Hs].
  apply negb_true_iff in Hc. rewrite Hc, (IH Hs). reflexivity.
Qed.

Lemma split_on_prefix p rest :
  no_comma p = true ->
  split_on ","%char (p ++ String ","%char rest) = p :: split_on ","%char rest.
Proof.
  induction p as [|c p IH]; [reflexivity|].
  rewrite append_cons. cbn [no_comma split_on]. intro H.
  apply andb_true_iff in H. destruct H as [Hc Hp].
  apply negb_true_iff in Hc. rewrite Hc, (IH Hp). reflexivity.
Qed.

Lemma no_comma_chars l :
  Forall (fun c => Ascii.eqb c ","%char = false) l ->
  no_comma (string_of_list_ascii l) = true.
Proof.
  induction 1 as [|c l Hc _ IH]; [reflexivity|].
  cbn [string_of_list_ascii no_comma]. now rewrite Hc, IH.
Qed.

Lemma b64char_not_comma v : sextet v -> Ascii.eqb (b64char v) ","%char = false.
Proof.
  intro Hv.
  apply (sextet_enum (fun v => negb (Ascii.eqb (b64char v) ","%char))) in Hv;
    [|vm_compute; reflexivity].
  now apply negb_true_iff in Hv.
Qed.

Lemma no_comma_btoa bytes : Forall byte bytes -> no_comma (btoa bytes) = true.
Proof.
  intro H. unfold btoa, btoa_chars. apply no_comma_chars, Forall_app. split.
  - apply Forall_map.
    eapply Forall_impl; [|apply sextets_of_bytes_range, H].
    intros v Hv. now apply b64char_not_comma.
  - unfold padding. destruct (Nat.modulo (length bytes) 3) as [|[|[|k]]];
      repeat constructor.
Qed.

(** X16.  [split(',')[1]] takes the payload out of a data URL: for a file
    type without a comma and any bytes, the part kept of the URL that
    [readAsDataURL] produces is the base64 text of the bytes, which [atob]
    turns back into them; a text without any comma gives [undefined]. *)
Theorem upload_keeps_payload mime bytes text :
  (no_comma mime = true -> Forall byte bytes ->
   base64Part (dataURL mime bytes) = Some (btoa bytes) /\
   atob (btoa bytes) = inr bytes) /\
  (no_comma text = true -> base64Part text = None).
Proof.
  split.
  - intros Hm Hb. split; [|now apply atob_btoa].
    unfold base64Part, dataURL.
    change (";base64," ++ btoa bytes)%string
      with (";base64" ++ String ","%char (btoa bytes))%string.
    rewrite <- !append_assoc.
    rewrite split_on_prefix.
    + rewrite split_on_no_comma by now apply no_comma_btoa. reflexivity.
    + rewrite !no_comma_append, Hm. reflexivity.
  - intro H. unfold base64Part. now rewrite split_on_no_comma.
Qed.

Lemma upload_keeps_payload_witness :
  (base64Part (dataURL "image/png" [137; 80; 78; 71]) = Some (btoa [137; 80; 78; 71]) /\
   atob (btoa [137; 80; 78; 71]) = inr [137; 80; 78; 71]) /\
  base64Part "no separator" = None.
Proof.
  split.
  - apply (proj1 (upload_keeps_payload "image/png" [137; 80; 78; 71] "no separator")).
    + reflexivity.
    + repeat constructor; unfold byte; lia.
  - apply (proj2 (upload_keeps_payload "image/png" [137; 80; 78; 71] "no separator")).
    reflexivity.
Defined.

End ServiceProps.

(** ** The application shell *)

Module AppProps.
Import Live Service App.

Local Notation gmap := stdpp.gmap.gmap.
Local Notation lookup := stdpp.base.lookup.
Local Notation insert := stdpp.base.insert.
Local Notation size := stdpp.base.size.
Local Notation empty := stdpp.base.empty.

(** *** Finite maps with keys 0 .. n-1 *)

Lemma keys_of_spec (A : Type) (m : gmap nat A) i :
  In i (keys_of m) <-> exists v, lookup i m = Some v.
Proof.
  unfold keys_of. rewrite in_map_iff. split.
  - intros [[k v] [<- Hin]]. exists v.
    apply stdpp.fin_maps.elem_of_map_to_list, stdpp.base.list_elem_of_In, Hin.
  - intros [v Hv]. exists (i, v). split; [reflexivity|].
    apply stdpp.base.list_elem_of_In, stdpp.fin_maps.elem_of_map_to_list, Hv.
Qed.

Lemma keys_of_NoDup (A : Type) (m : gmap nat A) : NoDup (keys_of m).
Proof.
  apply stdpp.base.NoDup_ListNoDup.
  exact (stdpp.fin_maps.NoDup_fst_map_to_list m).
Qed.

Lemma keys_of_length (A : Type) (m : gmap nat A) : length (keys_of m) = size m.
Proof.
  unfold keys_of. rewrite length_map.
  apply stdpp.fin_maps.length_map_to_list.
Qed.

Lemma full_map_covers (A : Type) (m : gmap nat A) n :
  size m = n ->
  (forall i v, lookup i m = Some v -> (i < n)%nat) ->
  forall i, (i < n)%nat -> exists v, lookup i m = Some v.
Proof.
  intros Hsize Hkeys i Hi. apply keys_of_spec.
  apply (NoDup_length_incl (keys_of_NoDup A m) (l' := seq 0 n)).
  - rewrite length_seq, keys_of_length. lia.
  - intros k Hk. apply keys_of_spec in Hk. destruct Hk as [v Hv].
    apply in_seq. specialize (Hkeys k v Hv). lia.
  - apply in_seq. lia.
Qed.

Lemma covering_map_size (A : Type) (m : gmap nat A) n :
  (forall i v, lookup i m = Some v -> (i < n)%nat) ->
  (forall i, (i < n)%nat -> exists v, lookup i m = Some v) ->
  size m = n.
Proof.
  intros Hkeys Hall. rewrite <- keys_of_length. apply Nat.le_antisymm.
  - rewrite <- (length_seq n 0).
    apply NoDup_incl_length; [apply keys_of_NoDup|].
    intros k Hk. apply keys_of_spec in Hk. destruct Hk as [v Hv].
    apply in_seq. specialize (Hkeys k v Hv). lia.
  - rewrite <- (length_seq n 0).
    apply NoDup_incl_length; [apply seq_NoDup|].
    intros k Hk. apply in_seq in Hk. apply keys_of_spec, Hall. lia.
Qed.

(** *** The quiz *)

Lemma scoreFrom_acc quiz : forall i m acc,
  scoreFrom i quiz m acc = (acc + scoreFrom i quiz m 0)%nat.
Proof.
  induction quiz as [|q quiz IH]; intros i m acc; cbn [scoreFrom]; [lia|].
  rewrite (IH (S i) m (if isCorrect m i q then S acc else acc)).
  rewrite (IH (S i) m (if isCorrect m i q then 1%nat else 0%nat)).
  destruct (isCorrect m i q); lia.
Qed.

Lemma scoreFrom_le quiz : forall i m, (scoreFrom i quiz m 0 <= length quiz)%nat.
Proof.
  induction quiz as [|q quiz IH]; intros i m; cbn [scoreFrom length]; [lia|].
  rewrite scoreFrom_acc. specialize (IH (S i) m).
  destruct (isCorrect m i q); lia.
Qed.

Lemma scoreFrom_full quiz : forall i m,
  scoreFrom i quiz m 0 = length quiz <->
  (forall k q, nth_error quiz k = Some q -> isCorrect m (i + k) q = true).
Proof.
  induction quiz as [|q quiz IH]; intros i m; cbn [scoreFrom length].
  - split; [|reflexivity]. intros _ k q' H. destruct k; discriminate.
  - rewrite scoreFrom_acc. pose proof (scoreFrom_le quiz (S i) m) as Hle. split.
    + intros H k q' Hk. destruct (isCorrect m i q) eqn:E; [|lia].
      destruct k as [|k].
      * cbn in Hk. injection Hk as <-. now rewrite Nat.add_0_r.
      * cbn [nth_error] in Hk. replace (i + S k)%nat with (S i + k)%nat by lia.
        apply (proj1 (IH (S i) m)); [lia | exact Hk].
    + intro H.
      assert (E : isCorrect m i q = true).
      { specialize (H 0%nat q eq_refl). now rewrite Nat.add_0_r in H. }
      rewrite E. cbn [Nat.add]. f_equal. apply IH. intros k q' Hk.
      replace (S i + k)%nat with (i + S k)%nat by lia. now apply H.
Qed.

Lemma isCorrect_spec m i q :
  isCorrect m i q = true <-> lookup i m = Some (correctAnswerIndex q).
Proof.
  unfold isCorrect. destruct (lookup i m) as [v|]; split; intro H; try discriminate.
  - apply Z.eqb_eq in H. now subst.
  - injection H as ->. apply Z.eqb_refl.
Qed.

(** X17.  The score never exceeds the number of questions, and it equals
    that number exactly when every question has the answer the quiz marks
    as correct; a question without an answer counts as wrong. *)
Theorem score_bounds a :
  (calculateScore a <= length (quiz a))%nat /\
  (calculateScore a = length (quiz a) <->
   forall k q, nth_error (quiz a) k = Some q ->
               lookup k (quizAnswers a) = Some (correctAnswerIndex q)).
Proof.
  unfold calculateScore. split; [apply scoreFrom_le|].
  rewrite scoreFrom_full. split; intros H k q Hk.
  - apply isCorrect_spec. exact (H k q Hk).
  - apply isCorrect_spec. exact (H k q Hk).
Qed.

Lemma selectAnswers_submitted clicks : forall a,
  quizSubmitted a = true -> selectAnswers clicks a = a.
Proof.
  induction clicks as [|c clicks IH]; intros a H; [reflexivity|].
  unfold selectAnswers in *. cbn [fold_left].
  unfold selectAnswer at 2. rewrite H. now apply IH.
Qed.

(** X18.  Once the quiz is submitted, no click on an option changes
    anything: the answers, and with them the score, stay as submitted. *)
Theorem answers_frozen_after_submit a clicks :
  selectAnswers clicks (submitQuiz a) = submitQuiz a /\
  calculateScore (selectAnswers clicks (submitQuiz a)) = calculateScore a.
Proof.
  rewrite selectAnswers_submitted by reflexivity.
  split; [reflexivity | destruct a; reflexivity].
Qed.

Lemma selectAnswers_open clicks : forall a,
  quizSubmitted a = false ->
  quizSubmitted (selectAnswers clicks a) = false /\
  quiz (selectAnswers clicks a) = quiz a /\
  forall i, (exists v, lookup i (quizAnswers (selectAnswers clicks a)) = Some v) <->
            ((exists v, lookup i (quizAnswers a) = Some v) \/ In i (map fst clicks)).
Proof.
  induction clicks as [|[idx opt] clicks IH]; intros a H.
  - repeat split; try assumption; [intro G; now left | intros [G|[]]; exact G].
  - unfold selectAnswers in *. cbn [fold_left fst snd map].
    assert (E : selectAnswer idx opt a
                = set_quizAnswers (insert idx (Z.of_nat opt) (quizAnswers a)) a).
    { unfold selectAnswer. now rewrite H. }
    rewrite E.
    destruct (IH (set_quizAnswers (insert idx (Z.of_nat opt) (quizAnswers a)) a))
      as [S1 [Q1 L1]]; [destruct a; exact H|].
    split; [exact S1|]. split; [rewrite Q1; destruct a; reflexivity|].
    intro i. rewrite L1. cbn [set_quizAnswers quizAnswers In].
    destruct (Nat.eq_dec idx i) as [->|Hne].
    + rewrite stdpp.fin_maps.lookup_insert_eq. split; [tauto|].
      intros _. left. eexists. reflexivity.
    + rewrite stdpp.fin_maps.lookup_insert_ne by exact Hne. tauto.
Qed.

(** X19.  On a quiz not yet answered, after any clicks on the options of
    its questions, the Submit button is enabled exactly when every
    question has been answered. *)
Theorem submit_needs_every_answer a clicks :
  quizSubmitted a = false ->
  quizAnswers a = empty ->
  Forall (fun click => (fst click < length (quiz a))%nat) clicks ->
  (submitDisabled (selectAnswers clicks a) = false <->
   forall i, (i < length (quiz a))%nat -> In i (map fst clicks)).
Proof.
  intros Hs He Hc.
  destruct (selectAnswers_open clicks a Hs) as [_ [Q L]].
  assert (K : forall i v,
             lookup i (quizAnswers (selectAnswers clicks a)) = Some v ->
             (i < length (quiz a))%nat).
  { intros i v Hv. destruct (proj1 (L i) (ex_intro _ v Hv)) as [[w Hw]|Hin].
    - rewrite He in Hw. now apply stdpp.fin_maps.lookup_empty_Some in Hw.
    - apply in_map_iff in Hin. destruct Hin as [c [<- Hc']].
      rewrite Forall_forall in Hc. now apply Hc. }
  unfold submitDisabled. rewrite Q, negb_false_iff, Nat.eqb_eq. split.
  - intros Hsize i Hi.
    destruct (full_map_covers _ _ _ Hsize K i Hi) as [v Hv].
    destruct (proj1 (L i) (ex_intro _ v Hv)) as [[w Hw]|Hin]; [|exact Hin].
    rewrite He in Hw. now apply stdpp.fin_maps.lookup_empty_Some in Hw.
  - intro Hall. apply covering_map_size; [exact K|].
    intros i Hi. apply L. right. now apply Hall.
Qed.

Lemma submit_needs_every_answer_witness :
  submitDisabled
    (selectAnswers [(1, 0); (0, 2); (1, 3)]%nat
       (set_quiz [mkQuizQuestion "a" [] 2; mkQuizQuestion "b" [] 3] initialModel))
  = false <->
  forall i,
    (i < length (quiz (set_quiz [mkQuizQuestion "a" [] 2; mkQuizQuestion "b" [] 3]
                         initialModel)))%nat ->
    In i (map fst [(1, 0); (0, 2); (1, 3)]%nat).
Proof.
  apply (submit_needs_every_answer
           (set_quiz [mkQuizQuestion "a" [] 2; mkQuizQuestion "b" [] 3] initialModel)
           [(1, 0); (0, 2); (1, 3)]%nat).
  - reflexivity.
  - reflexivity.
  - repeat constructor.
Defined.

(** X20.  [startQuiz] replaces the questions but keeps the answers and the
    submitted flag.  A quiz taken again after a submission opens as
    already submitted, with the old answers, and takes no new answer. *)
Theorem retaken_quiz_is_submitted a l questions clicks :
  lecture a = Some l ->
  let a' := fst (startQuiz (inr questions) (backToLecture (submitQuiz a))) in
  state a' = QUIZ /\
  quiz a' = questions /\
  quizSubmitted a' = true /\
  quizAnswers a' = quizAnswers a /\
  selectAnswers clicks a' = a'.
Proof.
  intros Hl a'. subst a'. unfold startQuiz.
  replace (lecture (backToLecture (submitQuiz a))) with (Some l)
    by (destruct a; cbn in *; now rewrite Hl).
  cbn [fst]. repeat split.
  apply selectAnswers_submitted. reflexivity.
Qed.

Lemma retaken_quiz_is_submitted_witness :
  let a := set_lecture (Some (mkLectureContent "t" "s" [])) initialModel in
  let a' := fst (startQuiz (inr [mkQuizQuestion "a" [] 2])
                   (backToLecture (submitQuiz a))) in
  state a' = QUIZ /\
  quiz a' = [mkQuizQuestion "a" [] 2] /\
  quizSubmitted a' = true /\
  quizAnswers a' = quizAnswers a /\
  selectAnswers [(0, 2)%nat] a' = a'.
Proof.
  apply (retaken_quiz_is_submitted
           (set_lecture (Some (mkLectureContent "t" "s" [])) initialModel)
           (mkLectureContent "t" "s" []) [mkQuizQuestion "a" [] 2] [(0, 2)%nat]).
  reflexivity.
Defined.

(** *** Generation of the lecture, of its images and of the quiz *)

(** X21.  Without files [startLectureGeneration] does nothing.  With files,
    the loading flag is false when it ends, whatever happened; a lecture
    that could not be produced (rejected call, response without text, text
    that does not parse) raises an alert and leaves the view, the lecture
    and everything else but the loading message as they were. *)
Theorem lecture_generation_outcomes outcome parse a :
  let r := startLectureGeneration (generateLecture outcome parse) a in
  (files a = [] -> r = (a, [])) /\
  (files a <> [] ->
   isLoading (fst r) = false /\
   match generateLecture outcome parse with
   | inr content =>
       state (fst r) = LECTURE /\ lecture (fst r) = Some content /\ snd r = []
   | inl _ =>
       fst r = set_isLoading false
                 (set_loadingMessage "Professor is analyzing your books..." a) /\
       snd r = [Alert "Failed to generate lecture. Please try again.";
                ConsoleErrorLogged]
   end) /\
  (forall text, outcome = inr text -> noText text = true ->
                generateLecture outcome parse = inl NoResponse).
Proof.
  cbv zeta. unfold startLectureGeneration. split; [|split].
  - intros ->. reflexivity.
  - intro Hne. destruct (files a) as [|f fs]; [contradiction|].
    destruct (generateLecture outcome parse) as [e|content].
    + destruct a; repeat split.
    + destruct a; repeat split.
  - intros text -> Ht. unfold generateLecture. now rewrite Ht.
Qed.

Lemma lecture_generation_outcomes_witness :
  let a := set_files [page] initialModel in
  let r := startLectureGeneration (generateLecture (inr None) (fun _ => None)) a in
  isLoading (fst r) = false /\
  (fst r = set_isLoading false
             (set_loadingMessage "Professor is analyzing your books..." a) /\
   snd r = [Alert "Failed to generate lecture. Please try again.";
            ConsoleErrorLogged]).
Proof.
  apply (proj1 (proj2 (lecture_generation_outcomes (inr None) (fun _ => None)
                         (set_files [page] initialModel)))).
  discriminate.
Defined.

(** X22.  A response without text is no error for the quiz: [generateQuiz]
    resolves with no question, and [startQuiz] shows the quiz view with an
    empty quiz, no alert, the loading flag false and a score of 0. *)
Theorem empty_response_gives_empty_quiz text parse a l :
  lecture a = Some l ->
  noText text = true ->
  let r := startQuiz (generateQuiz (inr text) parse) a in
  generateQuiz (inr text) parse = inr [] /\
  state (fst r) = QUIZ /\
  quiz (fst r) = [] /\
  snd r = [] /\
  isLoading (fst r) = false /\
  calculateScore (fst r) = 0%nat.
Proof.
  intros Hl Ht r. subst r. unfold generateQuiz, startQuiz. rewrite Ht, Hl.
  repeat split.
Qed.

Lemma empty_response_gives_empty_quiz_witness :
  let a := set_lecture (Some (mkLectureContent "t" "s" [])) initialModel in
  let r := startQuiz (generateQuiz (inr None) (fun _ => None)) a in
  generateQuiz (inr None) (fun _ => None) = inr [] /\
  state (fst r) = QUIZ /\
  quiz (fst r) = [] /\
  snd r = [] /\
  isLoading (fst r) = false /\
  calculateScore (fst r) = 0%nat.
Proof.
  apply (empty_response_gives_empty_quiz None (fun _ => None)
           (set_lecture (Some (mkLectureContent "t" "s" [])) initialModel)
           (mkLectureContent "t" "s" [])); reflexivity.
Defined.

Lemma image_url_total generateContent prompt :
  exists url,
    Gemini.generateLectureImage generateContent prompt = inr url /\
    (url = Gemini.imageUnavailable \/ url = Gemini.imageGenerationFailed \/
     exists d, url = Gemini.dataUrl d).
Proof.
  unfold Gemini.generateLectureImage, Gemini.catching.
  destruct (generateContent prompt) as [e|response].
  - eexists. split; [reflexivity | now left].
  - eexists. split; [reflexivity|].
    induction (Gemini.partsOf response) as [|part rest IH].
    + right. now left.
    + cbn [Gemini.firstImage]. destruct (Gemini.inlineData part) as [d|].
      * right. right. now exists d.
      * exact IH.
Qed.

Lemma imageLoaded_other generateContent task a i :
  fst task <> i ->
  lookup i (generatedImages (imageLoaded generateContent task a))
  = lookup i (generatedImages a).
Proof.
  intro Hne. unfold imageLoaded.
  destruct (Gemini.generateLectureImage generateContent (snd task)); [reflexivity|].
  cbn [set_generatedImages generatedImages].
  now apply stdpp.fin_maps.lookup_insert_ne.
Qed.

Lemma imagesLoaded_other generateContent order : forall a i,
  ~ In i (map fst order) ->
  lookup i (generatedImages (imagesLoaded generateContent order a))
  = lookup i (generatedImages a).
Proof.
  induction order as [|task order IH]; intros a i Hi; [reflexivity|].
  unfold imagesLoaded in *. cbn [fold_left map In] in *.
  rewrite IH by tauto. apply imageLoaded_other. tauto.
Qed.

Lemma imagesLoaded_task generateContent order : forall a i prompt url,
  NoDup (map fst order) ->
  In (i, prompt) order ->
  Gemini.generateLectureImage generateContent prompt = inr url ->
  lookup i (generatedImages (imagesLoaded generateContent order a)) = Some url.
Proof.
  induction order as [|task order IH]; intros a i prompt url Hnd Hin Hurl; [contradiction|].
  cbn [map] in Hnd. inversion_clear Hnd as [|? ? Hnotin Hnd'].
  unfold imagesLoaded in *. cbn [fold_left].
  destruct Hin as [->|Hin].
  - fold (imagesLoaded generateContent order
            (imageLoaded generateContent (i, prompt) a)).
    rewrite imagesLoaded_other by exact Hnotin.
    unfold imageLoaded. cbn [fst snd]. rewrite Hurl.
    cbn [set_generatedImages generatedImages].
    apply stdpp.fin_maps.lookup_insert_eq.
  - now apply (IH _ i prompt url).
Qed.

Lemma imageTasks_indices sections0 : forall start,
  map fst (combine (seq start (length sections0)) (map visualPrompt sections0))
  = seq start (length sections0).
Proof.
  induction sections0 as [|s sections0 IH]; intro start; [reflexivity|].
  cbn [length seq map combine fst]. now rewrite IH.
Qed.

Lemma imageTasks_member sections0 : forall start i section,
  nth_error sections0 i = Some section ->
  In ((start + i)%nat, visualPrompt section)
     (combine (seq start (length sections0)) (map visualPrompt sections0)).
Proof.
  induction sections0 as [|s sections0 IH]; intros start i section H.
  - destruct i; discriminate.
  - cbn [length seq map combine]. destruct i as [|i].
    + cbn in H. injection H as <-. left. now rewrite Nat.add_0_r.
    + right. replace (start + S i)%nat with (S start + i)%nat by lia.
      now apply IH.
Qed.

(** X23.  Whatever the order in which the image requests of a lecture end,
    once all have ended every section has its image: the entry at the
    index of the section is what [generateLectureImage] returned for its
    prompt, a data URL or one of the two placeholders. *)
Theorem every_section_gets_an_image generateContent content order a i section :
  Permutation order (imageTasks content) ->
  nth_error (sections content) i = Some section ->
  exists url,
    lookup i (generatedImages (imagesLoaded generateContent order a)) = Some url /\
    Gemini.generateLectureImage generateContent (visualPrompt section) = inr url /\
    (url = Gemini.imageUnavailable \/ url = Gemini.imageGenerationFailed \/
     exists d, url = Gemini.dataUrl d).
Proof.
  intros Hperm Hnth.
  destruct (image_url_total generateContent (visualPrompt section)) as [url [Hurl Hshape]].
  exists url. split; [|split; assumption].
  apply (imagesLoaded_task generateContent order a i (visualPrompt section) url).
  - apply (Permutation_NoDup (l := map fst (imageTasks content)));
      [apply Permutation_map, Permutation_sym, Hperm|].
    unfold imageTasks. rewrite imageTasks_indices. apply seq_NoDup.
  - apply (Permutation_in _ (Permutation_sym Hperm)).
    exact (imageTasks_member (sections content) 0 i section Hnth).
  - exact Hurl.
Qed.

Lemma every_section_gets_an_image_witness :
  let content := mkLectureContent "t" "s"
                   [mkLectureSection "h0" "c0" "p0"; mkLectureSection "h1" "c1" "p1"] in
  exists url,
    lookup 1%nat
      (generatedImages
         (imagesLoaded (fun _ => inl (RemoteError "down"))
            [(1%nat, "p1"%string); (0%nat, "p0"%string)] initialModel)) = Some url /\
    Gemini.generateLectureImage (fun _ => inl (RemoteError "down"))
      (visualPrompt (mkLectureSection "h1" "c1" "p1")) = inr url /\
    (url = Gemini.imageUnavailable \/ url = Gemini.imageGenerationFailed \/
     exists d, url = Gemini.dataUrl d).
Proof.
  apply (every_section_gets_an_image (fun _ => inl (RemoteError "down"))
           (mkLectureContent "t" "s"
              [mkLectureSection "h0" "c0" "p0"; mkLectureSection "h1" "c1" "p1"])
           [(1%nat, "p1"%string); (0%nat, "p0"%string)] initialModel 1%nat
           (mkLectureSection "h1" "c1" "p1")).
  - apply perm_swap.
  - reflexivity.
Defined.

(** *** Reading aloud *)



End AppProps.
